(** * svelte5-wasm-poc: the conversion page, [src/routes/+page.svelte]

    A shallow embedding of the page's script: the capability parser
    [getFormatsFromLog], the startup routine [loadFFmpeg], the job routine
    [convertVideo], the drop handler [onDropped] and [download].

    JavaScript strings are sequences of UTF-16 code units; a code unit is a
    number of [N].  The regular expression of the parser is run by a
    backtracking matcher written after the continuation-passing matchers of
    the ECMAScript specification. *)

From Stdlib Require Import NArith ZArith String Ascii Bool Lia PrimFloat.
From stdpp Require Import base list.

Open Scope N_scope.

(** ** JavaScript strings *)

Module JS.

Definition jsstring := list N.

(** A string literal of the source, one code unit per character. *)
Definition js (s : string) : jsstring := map N_of_ascii (list_ascii_of_string s).

(** LineTerminator :: LF, CR, LS, PS. *)
Definition isLineTerminator (c : N) : bool :=
  (c =? 0x0A) || (c =? 0x0D) || (c =? 0x2028) || (c =? 0x2029).

(** WhiteSpace :: TAB, VT, FF, ZWNBSP and the code points of category Zs. *)
Definition isWhiteSpace (c : N) : bool :=
  (c =? 0x09) || (c =? 0x0B) || (c =? 0x0C) || (c =? 0xFEFF)
  || (c =? 0x20) || (c =? 0xA0) || (c =? 0x1680)
  || ((0x2000 <=? c) && (c <=? 0x200A))
  || (c =? 0x202F) || (c =? 0x205F) || (c =? 0x3000).

(** What [String.prototype.trim] strips and what [\s] matches. *)
Definition isSpace (c : N) : bool := isWhiteSpace c || isLineTerminator c.

Fixpoint dropWhile (p : N -> bool) (s : jsstring) : jsstring :=
  match s with
  | [] => []
  | c :: t => if p c then dropWhile p t else s
  end.

Definition trimStart (s : jsstring) : jsstring := dropWhile isSpace s.
Definition trimEnd (s : jsstring) : jsstring := reverse (dropWhile isSpace (reverse s)).

(** [s.trim()] *)
Definition trim (s : jsstring) : jsstring := trimEnd (trimStart s).

Definition eqb (a b : jsstring) : bool := bool_decide (a = b).

Fixpoint startsWith (s p : jsstring) : bool :=
  match p, s with
  | [], _ => true
  | _ :: _, [] => false
  | a :: p', b :: s' => (a =? b) && startsWith s' p'
  end.

(** [s.endsWith(p)] *)
Definition endsWith (s p : jsstring) : bool := startsWith (reverse s) (reverse p).

(** [s.includes(p)]: [p] occurs in [s] at some index. *)
Fixpoint includes (s p : jsstring) : bool :=
  startsWith s p || match s with [] => false | _ :: t => includes t p end.

(** [s.split(sep)] for a separator of one code unit: the array is never empty. *)
Fixpoint split (sep : N) (s : jsstring) : list jsstring :=
  match s with
  | [] => [[]]
  | c :: t =>
      if c =? sep then [] :: split sep t
      else match split sep t with
           | [] => [[c]]
           | w :: ws => (c :: w) :: ws
           end
  end.

(** [a.pop()] as an expression: the last element, [undefined] on an empty array. *)
Definition pop {A} (a : list A) : option A := last a.

(** Truthiness of a string: the empty string is falsy. *)
Definition truthy (s : jsstring) : bool := negb (eqb s []).

End JS.
Import JS.

(** ** Regular expressions *)

Module RegExp.

(** The fragment of the pattern syntax that [formatLineRegex] uses. *)
Inductive regex : Type :=
| Chr (ch : N)                 (* a pattern character *)
| Cls (p : N -> bool)          (* a character class escape or [.] *)
| Seq (r1 r2 : regex)
| Alt (r1 r2 : regex)          (* r1|r2, tried left to right *)
| Plus (r : regex)             (* r+, greedy *)
| Group (i : nat) (r : regex)  (* the i-th capturing group *)
| Bol                          (* ^ without the m flag *)
| Eol.                         (* $ without the m flag *)

(** A match state: [endIndex] code units are consumed, [rest] is what follows
    in the input, [captures] holds the groups ([None] is undefined). *)
Record MatchState : Type := mkState {
  endIndex : nat;
  rest : jsstring;
  captures : list (option jsstring)
}.

Definition Continuation : Type := MatchState -> option MatchState.
Definition Matcher : Type := MatchState -> Continuation -> option MatchState.

Definition advance (x : MatchState) (t : jsstring) : MatchState :=
  mkState (S (endIndex x)) t (captures x).

Definition CharacterSetMatcher (p : N -> bool) : Matcher := fun x c =>
  match rest x with
  | [] => None
  | ch :: t => if p ch then c (advance x t) else None
  end.

(** RepeatMatcher of the specification for a greedy quantifier without upper
    bound.  An iteration beyond the required ones that consumes nothing fails.
    [fuel] bounds the number of iterations; see [matcher] for its value.
    The specification clears the groups inside the quantified atom before each
    iteration; [formatLineRegex] has no group under a quantifier, and this
    matcher does not clear any. *)
Fixpoint RepeatMatcher (m : Matcher) (fuel min : nat) (x : MatchState)
    (c : Continuation) : option MatchState :=
  match fuel with
  | O => None
  | S fuel' =>
      let d : Continuation := fun y =>
        if (min =? 0)%nat && (endIndex y =? endIndex x)%nat then None
        else RepeatMatcher m fuel' (pred min) y c in
      if (min =? 0)%nat then
        match m x d with
        | Some z => Some z
        | None => c x
        end
      else m x d
  end.

Fixpoint matcher (r : regex) : Matcher := fun x c =>
  match r with
  | Chr ch => CharacterSetMatcher (N.eqb ch) x c
  | Cls p => CharacterSetMatcher p x c
  | Seq r1 r2 => matcher r1 x (fun y => matcher r2 y c)
  | Alt r1 r2 =>
      match matcher r1 x c with
      | Some z => Some z
      | None => matcher r2 x c
      end
  | Plus r1 =>
      (* one required iteration, then at most one per remaining code unit,
         then the call that stops *)
      RepeatMatcher (matcher r1) (2 + length (rest x)) 1 x c
  | Group i r1 =>
      matcher r1 x (fun y =>
        let cap := take (endIndex y - endIndex x) (rest x) in
        c (mkState (endIndex y) (rest y) (<[i := Some cap]> (captures y))))
  | Bol => if (endIndex x =? 0)%nat then c x else None
  | Eol => match rest x with [] => c x | _ :: _ => None end
  end.

(** RegExpBuiltinExec for a pattern without the g and y flags: the match is
    tried at index 0, 1, ... up to the length of the input.  The result array
    has the matched substring at index 0 and group [i] at index [i]. *)
Fixpoint execFrom (r : regex) (nGroups : nat) (lastIndex : nat) (s : jsstring)
    : option (list (option jsstring)) :=
  match matcher r (mkState lastIndex s (replicate (S nGroups) None)) Some with
  | Some y => Some (<[0%nat := Some (take (endIndex y - lastIndex) s)]> (captures y))
  | None =>
      match s with
      | [] => None
      | _ :: t => execFrom r nGroups (S lastIndex) t
      end
  end.

Definition exec (r : regex) (nGroups : nat) (s : jsstring) := execFrom r nGroups 0 s.

(** [regex.test(s)] *)
Definition test (r : regex) (nGroups : nat) (s : jsstring) : bool :=
  bool_decide (is_Some (exec r nGroups s)).

(** [s.match(regex)] *)
Definition match_ (s : jsstring) (r : regex) (nGroups : nat) := exec r nGroups s.

End RegExp.
Import RegExp.

(** ** What a pattern denotes *)

Module RegExpRel.

(** [matches r x y]: [r] can take the state [x] to [y].  [iter r x y]: so can
    zero or more further iterations of [r+], none of them empty. *)
Inductive matches : regex -> MatchState -> MatchState -> Prop :=
| M_Chr ch x t :
    rest x = ch :: t -> matches (Chr ch) x (advance x t)
| M_Cls p ch x t :
    rest x = ch :: t -> p ch = true -> matches (Cls p) x (advance x t)
| M_Seq r1 r2 x y z :
    matches r1 x y -> matches r2 y z -> matches (Seq r1 r2) x z
| M_AltL r1 r2 x y :
    matches r1 x y -> matches (Alt r1 r2) x y
| M_AltR r1 r2 x y :
    matches r2 x y -> matches (Alt r1 r2) x y
| M_Plus r x y z :
    matches r x y -> iter r y z -> matches (Plus r) x z
| M_Group i r x y :
    matches r x y ->
    matches (Group i r) x
      (mkState (endIndex y) (rest y)
         (<[i := Some (take (endIndex y - endIndex x) (rest x))]> (captures y)))
| M_Bol x :
    endIndex x = 0%nat -> matches Bol x x
| M_Eol x :
    rest x = [] -> matches Eol x x
with iter : regex -> MatchState -> MatchState -> Prop :=
| I_stop r x :
    iter r x x
| I_more r x y z :
    matches r x y -> endIndex y <> endIndex x -> iter r y z -> iter r x z.

Scheme matches_mut := Minimality for matches Sort Prop
  with iter_mut := Minimality for iter Sort Prop.

Combined Scheme matches_iter_ind from matches_mut, iter_mut.

(** A match consumes a prefix of what is left and counts it. *)
Definition consumes (x y : MatchState) : Prop :=
  exists w, rest x = w ++ rest y /\ endIndex y = (endIndex x + length w)%nat.

(** Runs of a character class. *)
Definition all (p : N -> bool) (w : jsstring) : Prop := Forall (fun ch => p ch = true) w.

End RegExpRel.
Import RegExpRel.

(** ** The capability parser *)

Record Format : Type := mkFormat {
  demuxingSupported : bool;
  muxingSupported : bool;
  abbreviation : jsstring;
  name : jsstring
}.

(** [\S] *)
Definition notSpace (c : N) : bool := negb (isSpace c).

(** [.] without the s flag *)
Definition notLineTerminator (c : N) : bool := negb (isLineTerminator c).

(** [/^(D|DE|E)\s+(\S+)\s+(.+)$/] *)
Definition formatLineRegex : regex :=
  Seq Bol
 (Seq (Group 1 (Alt (Chr 0x44) (Alt (Seq (Chr 0x44) (Chr 0x45)) (Chr 0x45))))
 (Seq (Plus (Cls isSpace))
 (Seq (Group 2 (Plus (Cls notSpace)))
 (Seq (Plus (Cls isSpace))
 (Seq (Group 3 (Plus (Cls notLineTerminator)))
      Eol))))).

(** A call that can throw: [Throw] is the TypeError of a method call on
    [undefined]. *)
Inductive completion (A : Type) : Type :=
| Normal (a : A)
| Throw.
Arguments Normal {A} a.
Arguments Throw {A}.

(** The body of the [for (const line of logMessages)] loop, [results] being the
    array built so far. *)
Fixpoint getFormatsFromLog_loop (logMessages : list jsstring) (results : list Format)
    : completion (list Format) :=
  match logMessages with
  | [] => Normal results
  | line :: logMessages' =>
      let trimmedLine := trim line in
      if negb (test formatLineRegex 3 trimmedLine) then
        getFormatsFromLog_loop logMessages' results
      else
        match match_ trimmedLine formatLineRegex 3 with
        | None => getFormatsFromLog_loop logMessages' results
        | Some m =>
            match m !! 1%nat, m !! 2%nat, m !! 3%nat with
            | Some (Some support), Some (Some abbreviation), Some (Some name) =>
                getFormatsFromLog_loop logMessages'
                  (results ++ [mkFormat (includes support (js "D"))
                                        (includes support (js "E"))
                                        abbreviation name])
            | _, _, _ => Throw
            end
        end
  end.

Definition getFormatsFromLog (logMessages : list jsstring) : completion (list Format) :=
  getFormatsFromLog_loop logMessages [].

(** *** The shape of a format line *)

Definition flags : list jsstring := [js "D"; js "DE"; js "E"].

(** [s] is [support], white space, [abbr], white space, [nm]: the flags are
    D, DE or E, the abbreviation has no white space, and the name is any
    non-empty run of code units other than line terminators. *)
Definition formatLine (s support abbr nm : jsstring) : Prop :=
  exists ws1 ws2,
    s = support ++ ws1 ++ abbr ++ ws2 ++ nm
    /\ support ∈ flags
    /\ ws1 <> [] /\ all isSpace ws1
    /\ abbr <> [] /\ all notSpace abbr
    /\ ws2 <> [] /\ all isSpace ws2
    /\ nm <> [] /\ all notLineTerminator nm.

Definition flagsRegex : regex :=
  Alt (Chr 0x44) (Alt (Seq (Chr 0x44) (Chr 0x45)) (Chr 0x45)).

(** What one line contributes to the result: the descriptor built from the
    groups of the match, nothing when the trimmed line does not match. *)
Definition descriptorOf (line : jsstring) : option Format :=
  match exec formatLineRegex 3 (trim line) with
  | Some [_; Some support; Some abbreviation; Some name] =>
      Some (mkFormat (includes support (js "D")) (includes support (js "E"))
                     abbreviation name)
  | _ => None
  end.

(** The trimmed line begins with D, DE or E and a white space character. *)
Definition startsWithFlags (t : jsstring) : Prop :=
  exists support ch t', support ∈ flags /\ isSpace ch = true /\ t = support ++ ch :: t'.

(** ** The page: reactive variables, the engine instance, the DOM *)

Inductive Status : Type :=
| loading | loaded | convert_start | convert_done | convert_error.

Definition Uint8Array := list Byte.byte.

Module File.
Record t : Type := mk { name : jsstring; data : Uint8Array }.
End File.

Record DataTransfer : Type := mkDataTransfer { files : list File.t }.
Record DragEvent : Type := mkDragEvent { dataTransfer : option DataTransfer }.

(** The events of the FFmpeg instance, with the fields the listeners read. *)
Inductive Event : Type :=
| progressEvent (progress : float)
| logEvent (message : jsstring).

(** The three closures that the script registers with [ffmpeg.on]. *)
Inductive Listener : Type :=
| onProgress          (* (event) => progress.set(event.progress * 100) *)
| onLogConsole        (* (event) => console.log(event.message) *)
| logFormatOutput.    (* (event) => loggedFormats.push(event.message) *)

(** What [download] hands to the browser with [a.click()]. *)
Record Download : Type := mkDownload {
  blobType : jsstring;
  download_name : jsstring;
  blobData : Uint8Array
}.

(** Everything the script can change: the five [let] variables, the listener
    table of the [ffmpeg] object, the array [loggedFormats] that
    [logFormatOutput] captures, the console and the downloads triggered.
    [progress] is the target of the tweened store, the value of the last
    [progress.set]. *)
Record Store : Type := mkStore {
  status : Status;
  error : jsstring;
  progress : float;
  formats : list Format;
  selectedOutputFormat : jsstring;
  listeners : list Listener;
  loggedFormats : list jsstring;
  console : list jsstring;
  downloads : list Download
}.

Definition set_status (v : Status) (s : Store) : Store :=
  mkStore v (error s) (progress s) (formats s) (selectedOutputFormat s)
          (listeners s) (loggedFormats s) (console s) (downloads s).
Definition set_error (v : jsstring) (s : Store) : Store :=
  mkStore (status s) v (progress s) (formats s) (selectedOutputFormat s)
          (listeners s) (loggedFormats s) (console s) (downloads s).
Definition set_progress (v : float) (s : Store) : Store :=
  mkStore (status s) (error s) v (formats s) (selectedOutputFormat s)
          (listeners s) (loggedFormats s) (console s) (downloads s).
Definition set_formats (v : list Format) (s : Store) : Store :=
  mkStore (status s) (error s) (progress s) v (selectedOutputFormat s)
          (listeners s) (loggedFormats s) (console s) (downloads s).
Definition set_selectedOutputFormat (v : jsstring) (s : Store) : Store :=
  mkStore (status s) (error s) (progress s) (formats s) v
          (listeners s) (loggedFormats s) (console s) (downloads s).
Definition set_listeners (v : list Listener) (s : Store) : Store :=
  mkStore (status s) (error s) (progress s) (formats s) (selectedOutputFormat s)
          v (loggedFormats s) (console s) (downloads s).
Definition set_loggedFormats (v : list jsstring) (s : Store) : Store :=
  mkStore (status s) (error s) (progress s) (formats s) (selectedOutputFormat s)
          (listeners s) v (console s) (downloads s).
Definition set_console (v : list jsstring) (s : Store) : Store :=
  mkStore (status s) (error s) (progress s) (formats s) (selectedOutputFormat s)
          (listeners s) (loggedFormats s) v (downloads s).
Definition set_downloads (v : list Download) (s : Store) : Store :=
  mkStore (status s) (error s) (progress s) (formats s) (selectedOutputFormat s)
          (listeners s) (loggedFormats s) (console s) v.

(** The declarations at the top of the script. *)
Definition initialStore : Store :=
  mkStore loading [] 0%float [] [] [] [] [] [].

(** [ffmpeg.on(_, l)] *)
Definition on (l : Listener) (s : Store) : Store :=
  set_listeners (listeners s ++ [l]) s.

Definition handle (l : Listener) (ev : Event) (s : Store) : Store :=
  match l, ev with
  | onProgress, progressEvent p => set_progress (PrimFloat.mul p 100%float) s
  | onLogConsole, logEvent m => set_console (console s ++ [m]) s
  | logFormatOutput, logEvent m => set_loggedFormats (loggedFormats s ++ [m]) s
  | _, _ => s
  end.

(** The instance calls the listeners of an event in registration order. *)
Definition emit (ev : Event) (s : Store) : Store :=
  fold_left (fun s' l => handle l ev s') (listeners s) s.

(** ** Asynchronous functions *)

(** The promises the script awaits: four methods of the engine and
    [file.arrayBuffer()]. *)
Inductive Call : Type :=
| Load (coreURL wasmURL : jsstring)
| Exec (argv : list jsstring)
| WriteFile (path : jsstring) (data : Uint8Array)
| ReadFile (path : jsstring)
| ArrayBuffer (file : File.t).

(** The value a fulfilled promise carries.  The script drops the values of
    [load] and [writeFile]; [readFile] is called without an encoding and
    yields bytes. *)
Definition Answer (c : Call) : Type :=
  match c with
  | Load _ _ => unit
  | Exec _ => Z
  | WriteFile _ _ => unit
  | ReadFile _ => Uint8Array
  | ArrayBuffer _ => Uint8Array
  end.

(** An async function run from a store: it returns, throws, or suspends at an
    [await] with the store as it stands; it is resumed with the promise's value
    and the store as the listeners left it.  No [await] of the script sits in
    a [try], so a rejected promise ends the function. *)
Inductive Async (A : Type) : Type :=
| Return (a : A) (s : Store)
| Reject (s : Store)
| Await (s : Store) (c : Call) (k : Answer c -> Store -> Async A).
Arguments Return {A} a s.
Arguments Reject {A} s.
Arguments Await {A} s c k.

(** [await f(...)] for an async function [f] of the script. *)
Fixpoint bind {A B} (m : Async A) (f : A -> Store -> Async B) : Async B :=
  match m with
  | Return a s => f a s
  | Reject s => Reject s
  | Await s c k => Await s c (fun x s' => bind (k x s') f)
  end.

Definition baseURL : jsstring := js "https://unpkg.com/@ffmpeg/core@0.12.6/dist/esm".

Definition loadFFmpeg (s : Store) : Async unit :=
  let s := set_listeners [] s in               (* ffmpeg = new FFmpeg() *)
  let s := on onProgress s in
  let s := set_status loading s in
  Await s (Load (baseURL ++ js "/ffmpeg-core.js") (baseURL ++ js "/ffmpeg-core.wasm"))
    (fun _ s =>
  let s := set_status loaded s in
  let s := on onLogConsole s in
  let s := set_loggedFormats [] s in           (* const loggedFormats = [] *)
  let s := on logFormatOutput s in
  Await s (Exec [js "-formats"]) (fun _ s =>
  match getFormatsFromLog (loggedFormats s) with
  | Throw => Reject s
  | Normal fs =>
      let s := set_formats fs s in
      let outputFormats := List.filter muxingSupported (formats s) in
      if (0 <? length outputFormats)%nat then
        match outputFormats !! 0%nat with
        | Some f => Return tt (set_selectedOutputFormat (abbreviation f) s)
        | None => Reject s
        end
      else Return tt s
  end)).

Definition fetchFile (file : File.t) (s : Store) : Async Uint8Array :=
  Await s (ArrayBuffer file) (fun buf s => Return buf s).

(** The result is [Some data], or [None] for the bare [return]. *)
Definition convertVideo (video : File.t) (s : Store) : Async (option Uint8Array) :=
  let s := set_status convert_start s in
  let s := set_error (js "") s in
  bind (fetchFile video s) (fun videoData s =>
  Await s (WriteFile (js "input.webm") videoData) (fun _ s =>
  Await s (Exec [js "-i"; js "input.webm"; js "output." ++ selectedOutputFormat s])
    (fun result s =>
  if negb (result =? 0)%Z then
    let s := set_error (js "Failed to convert video") s in
    let s := set_status convert_error s in
    Return None s
  else
    Await s (ReadFile (js "output.mp4")) (fun data s =>
    let s := set_status convert_done s in
    Return (Some data) s)))).

Definition download (data : Uint8Array) (s : Store) : Store :=
  set_downloads (downloads s ++ [mkDownload (js "video/mp4") (js "output.mp4") data]) s.

(** [file.name.split(".").pop() || ""] *)
Definition fileFormatOf (fileName : jsstring) : jsstring :=
  match pop (split 0x2E fileName) with
  | Some w => if truthy w then w else js ""
  | None => js ""
  end.

(** [event.dataTransfer?.files || []]: a FileList is truthy even when empty. *)
Definition filesOf (event : DragEvent) : list File.t :=
  match dataTransfer event with
  | Some dt => files dt
  | None => []
  end.

Definition onDropped (event : DragEvent) (s : Store) : Async unit :=
  let files := filesOf event in
  if (length files =? 0)%nat then Return tt s
  else if (1 <? length files)%nat then
    Return tt (set_error (js "Only one file is allowed") s)
  else
    match files !! 0%nat with
    | None => Reject s
    | Some file =>
        let fileFormat := fileFormatOf (File.name file) in
        let isFileFormatSupported :=
          List.find (fun f => endsWith (File.name file) fileFormat)
                    (List.filter demuxingSupported (formats s)) in
        if negb (truthy fileFormat) || negb (bool_decide (is_Some isFileFormatSupported))
        then
          Return tt (set_error (js "Data format " ++ fileFormat ++ js " not supported") s)
        else
          bind (convertVideo file s) (fun data s =>
          match data with
          | None => Return tt s          (* a Uint8Array is truthy whatever its length *)
          | Some data => Return tt (download data s)
          end)
    end.

(** ** Running an async function against a host *)

(** The engine and the File API are black boxes.  A host says, for a call in a
    state of its own, which events the engine fires while the promise is
    pending, whether the promise is fulfilled (and with what) or rejected, and
    its next state. *)
Record Host : Type := mkHost {
  HState : Type;
  answer : forall c : Call, HState -> list Event * option (Answer c) * HState
}.

Inductive Value : Type :=
| VUnit
| VNumber (z : Z)
| VBytes (b : Uint8Array).

Definition toValue (c : Call) : Answer c -> Value :=
  match c with
  | Load _ _ => fun _ => VUnit
  | Exec _ => VNumber
  | WriteFile _ _ => fun _ => VUnit
  | ReadFile _ => VBytes
  | ArrayBuffer _ => VBytes
  end.

(** What an observer of the page sees, in order. *)
Inductive Obs : Type :=
| Suspended (s : Store) (c : Call)            (* the function awaits [c], the store is [s] *)
| Delivered (c : Call) (ev : Event) (s : Store) (* [ev] fired while [c] was pending, leaving [s] *)
| Fulfilled (c : Call) (v : Value)
| Rejected (c : Call).

Definition deliverAll (evs : list Event) (s : Store) : Store :=
  fold_left (fun s' ev => emit ev s') evs s.

Fixpoint deliveries (c : Call) (evs : list Event) (s : Store) : list Obs :=
  match evs with
  | [] => []
  | ev :: evs' => Delivered c ev (emit ev s) :: deliveries c evs' (emit ev s)
  end.

Record Run (A : Type) (h : Host) : Type := mkRun {
  trace : list Obs;
  result : option A;        (* [None]: the promise of the function is rejected *)
  final : Store;
  hostAfter : HState h
}.
Arguments mkRun {A h}.
Arguments trace {A h}.
Arguments result {A h}.
Arguments final {A h}.
Arguments hostAfter {A h}.

Fixpoint run {A} (h : Host) (p : Async A) (e : HState h) : Run A h :=
  match p with
  | Return a s => mkRun [] (Some a) s e
  | Reject s => mkRun [] None s e
  | Await s c k =>
      let '(evs, r, e') := answer h c e in
      let s' := deliverAll evs s in
      match r with
      | Some x =>
          let r' := run h (k x s') e' in
          mkRun (Suspended s c :: deliveries c evs s ++ Fulfilled c (toValue c x) :: trace r')
                (result r') (final r') (hostAfter r')
      | None =>
          mkRun (Suspended s c :: deliveries c evs s ++ [Rejected c]) None s' e'
      end
  end.

(** ** Vocabulary of the properties *)

(** Listeners touch [progress], [console] and [loggedFormats] only. *)
Definition sameControl (s s' : Store) : Prop :=
  status s' = status s /\ error s' = error s /\ formats s' = formats s
  /\ selectedOutputFormat s' = selectedOutputFormat s
  /\ downloads s' = downloads s /\ listeners s' = listeners s.

(** The test that [onDropped] makes on a single file. *)
Definition accepted (fileName : jsstring) (fs : list Format) : bool :=
  truthy (fileFormatOf fileName) && existsb demuxingSupported fs.

(** What [onDropped] awaits once a file is accepted. *)
Definition job (file : File.t) (s : Store) : Async unit :=
  bind (convertVideo file s) (fun data s =>
    match data with
    | None => Return tt s
    | Some data => Return tt (download data s)
    end).

Definition loadCall : Call :=
  Load (baseURL ++ js "/ffmpeg-core.js") (baseURL ++ js "/ffmpeg-core.wasm").

Definition discoveryCall : Call := Exec [js "-formats"].

(** The messages of the log events among [evs], in order. *)
Definition logMessages (evs : list Event) : list jsstring :=
  omap (fun ev => match ev with logEvent m => Some m | progressEvent _ => None end) evs.

(** The store [s] was seen while [c] was pending. *)
Definition observed (c : Call) (s : Store) (tr : list Obs) : Prop :=
  Suspended s c ∈ tr \/ exists ev, Delivered c ev s ∈ tr.

(** ** A host for examples *)

Module Mock.

(** The virtual file system, most recent write first. *)
Definition FS := list (jsstring * Uint8Array).

Fixpoint lookupFile (fs : FS) (path : jsstring) : option Uint8Array :=
  match fs with
  | [] => None
  | (p, d) :: fs' => if eqb p path then Some d else lookupFile fs' path
  end.

(** An engine that loads, prints [listing] for [-formats], and for any other
    argument vector fires [samples], returns [exitCode] and, when that is 0,
    leaves [output] under the last argument. *)
Definition engine (listing : list jsstring) (samples : list float) (exitCode : Z)
    (output : Uint8Array) : Host :=
  mkHost FS (fun c =>
    match c return FS -> list Event * option (Answer c) * FS with
    | Load _ _ => fun fs => ([], Some tt, fs)
    | Exec argv => fun fs =>
        if bool_decide (argv = [js "-formats"]) then (map logEvent listing, Some 0%Z, fs)
        else (map progressEvent samples, Some exitCode,
              if (exitCode =? 0)%Z then (default [] (last argv), output) :: fs else fs)
    | WriteFile path data => fun fs => ([], Some tt, (path, data) :: fs)
    | ReadFile path => fun fs => ([], lookupFile fs path, fs)
    | ArrayBuffer file => fun fs => ([], Some (File.data file), fs)
    end).

(** Two listings in the layout of [ffmpeg -formats]; they differ in which
    muxer comes first. *)
Definition listingWebmFirst : list jsstring :=
  [js "File formats:";
   js " D. = Demuxing supported";
   js " .E = Muxing supported";
   js " --";
   js " D  asf             ASF (Advanced / Active Streaming Format)";
   js "  E webm            WebM";
   js " DE mp4             MP4 (MPEG-4 Part 14)"].

Definition listingMp4First : list jsstring :=
  [js "File formats:";
   js " --";
   js " D  asf             ASF (Advanced / Active Streaming Format)";
   js " DE mp4             MP4 (MPEG-4 Part 14)";
   js "  E webm            WebM"].

Definition drop (names : list jsstring) : DragEvent :=
  mkDragEvent (Some (mkDataTransfer (map (fun n => File.mk n [Byte.x01; Byte.x02]) names))).

(** Engines that convert, and one that fails with exit code 1. *)
Definition webmFirst : Host := engine listingWebmFirst [0.5%float; 1%float] 0 [Byte.x2a].
Definition mp4First : Host := engine listingMp4First [0.5%float; 1%float] 0 [Byte.x2a].
Definition failing : Host := engine listingMp4First [0.5%float] 1 [].

End Mock.

(** ** More of the page *)

(** The end of a run of [p]: nothing follows, or a code unit outside [p]. *)
Definition stops (p : N -> bool) (t : jsstring) : Prop :=
  t = [] \/ exists ch t', t = ch :: t' /\ p ch = false.

(** The part of the pattern after the flags. *)
Definition afterFlags : regex :=
  Seq (Plus (Cls isSpace))
 (Seq (Group 2 (Plus (Cls notSpace)))
 (Seq (Plus (Cls isSpace))
 (Seq (Group 3 (Plus (Cls notLineTerminator)))
      Eol))).

(** One line with white space put around it. *)
Definition padded (line line' : jsstring) : Prop :=
  exists pre post, all isSpace pre /\ all isSpace post /\ line' = pre ++ line ++ post.

(** The calls a run made and the events it saw delivered, in order. *)
Definition calls (tr : list Obs) : list Call :=
  omap (fun o => match o with Suspended _ c => Some c | _ => None end) tr.

Definition events (tr : list Obs) : list Event :=
  omap (fun o => match o with Delivered _ ev _ => Some ev | _ => None end) tr.

(** The last progress sample among [evs]. *)
Fixpoint lastProgress (evs : list Event) : option float :=
  match evs with
  | [] => None
  | ev :: evs' =>
      match lastProgress evs' with
      | Some p => Some p
      | None => match ev with progressEvent p => Some p | logEvent _ => None end
      end
  end.

(** The store an observation shows. *)
Definition storeOf (o : Obs) : option Store :=
  match o with
  | Suspended s _ => Some s
  | Delivered _ _ s => Some s
  | Fulfilled _ _ | Rejected _ => None
  end.

(** [s'] has the progress value and the listeners of [s]. *)
Definition sameProgress (s s' : Store) : Prop :=
  progress s' = progress s /\ listeners s' = listeners s.

(** An async function that, given [s], neither writes [progress] nor touches
    the listeners: it awaits and ends with those of [s], and carries on
    likewise from whatever store it is resumed with. *)
Fixpoint keepsProgress {A} (s : Store) (p : Async A) : Prop :=
  match p with
  | Return _ s' => sameProgress s s'
  | Reject s' => sameProgress s s'
  | Await s' c k => sameProgress s s' /\ forall x s'', keepsProgress s'' (k x s'')
  end.

(** *** The markup *)

(** What the template renders.  The progress bar shows the animated value of
    the tweened store, which is not modelled: [ProgressBar] only says that the
    bar is there. *)
Inductive Element : Type :=
| Paragraph (text : jsstring)
| ErrorParagraph (text : jsstring)
| ProgressBar
| Heading (text : jsstring)
| Legend (text : jsstring)
| RadioOption (name value group label : jsstring).

Definition statusIs (s : Store) (v : Status) : bool :=
  match status s, v with
  | loading, loading | loaded, loaded | convert_start, convert_start
  | convert_done, convert_done | convert_error, convert_error => true
  | _, _ => false
  end.

(** The [div] with class [drop]. *)
Definition dropZone (s : Store) : list Element :=
  (if statusIs s loading then [Paragraph (js "Loading FFMpeg ....")] else [])
  ++ (if statusIs s loaded then [Paragraph (js "Drag video here")] else [])
  ++ (if statusIs s convert_start then [Paragraph (js "Converting..."); ProgressBar] else [])
  ++ (if statusIs s convert_done then [Paragraph (js "Done!")] else [])
  ++ (if truthy (error s) then [ErrorParagraph (error s)] else []).

(** One pass of [{#each formats as format}].  Each [input] is a radio button
    with the name "formats", the abbreviation as its value, and
    [bind:group={selectedOutputFormat}]; [group] is the bound value.  The
    buttons share their name, so they are one radio group and the browser
    keeps at most one of them checked; the binding checks a button whose value
    is the bound value.  Which button that is when two carry the same value is
    settled by the browser and not by the page: the markup has no [checked]
    of its own and neither has [RadioOption]. *)
Definition radioOptions (s : Store) : list Element :=
  flat_map (fun format =>
    if muxingSupported format then
      [RadioOption (js "formats") (abbreviation format) (selectedOutputFormat s)
                   (name format ++ js " (" ++ abbreviation format ++ js ")")]
    else []) (formats s).

(** The [div] with class [formats]. *)
Definition formatsPanel (s : Store) : list Element :=
  if (length (formats s) =? 0)%nat then [Paragraph (js "Loading supported formats...")]
  else Heading (js "Available Output Formats")
       :: Legend (js "Select your output format:")
       :: radioOptions s.

(** *** The earlier page, [src/unnamed/part_000] *)

Module Legacy.

Record DroppedFile : Type := mkDroppedFile { file : File.t; type : jsstring }.

Record DragEvent : Type := mkDragEvent { dataTransfer : option (list DroppedFile) }.

Definition loadFFmpeg (s : Store) : Async unit :=
  let s := set_listeners [] s in               (* ffmpeg = new FFmpeg() *)
  let s := on onProgress s in
  let s := set_status loading s in
  Await s (Load (baseURL ++ js "/ffmpeg-core.js") (baseURL ++ js "/ffmpeg-core.wasm"))
    (fun _ s =>
  let s := set_status loaded s in
  Return tt s).

Definition convertVideo (video : File.t) (s : Store) : Async Uint8Array :=
  let s := set_status convert_start s in
  let s := set_error (js "") s in
  bind (fetchFile video s) (fun videoData s =>
  Await s (WriteFile (js "input.webm") videoData) (fun _ s =>
  Await s (Exec [js "-i"; js "input.webm"; js "output.mp4"]) (fun _ s =>
  Await s (ReadFile (js "output.mp4")) (fun data s =>
  let s := set_status convert_done s in
  Return data s)))).

Definition filesOf (event : DragEvent) : list DroppedFile :=
  match dataTransfer event with
  | Some fs => fs
  | None => []
  end.

Definition onDropped (event : DragEvent) (s : Store) : Async unit :=
  let files := filesOf event in
  if (length files =? 0)%nat then Return tt s
  else if (1 <? length files)%nat then
    Return tt (set_error (js "Only one file is allowed") s)
  else
    match files !! 0%nat with
    | None => Reject s
    | Some f =>
        if negb (eqb (type f) (js "video/webm")) then
          Return tt (set_error (js "Only WebM files are allowed") s)
        else
          bind (convertVideo (file f) s) (fun data s => Return tt (download data s))
    end.

End Legacy.

(** What the earlier [onDropped] awaits once a file is accepted. *)
Definition legacyJob (f : File.t) (s : Store) : Async unit :=
  bind (Legacy.convertVideo f s) (fun data s => Return tt (download data s)).

(** * Properties *)

(** ** The primitives on examples *)

Example trim_example :
  trim ([0x20; 0x09] ++ js "D  asf   x" ++ [0x0D; 0x0A; 0xA0]) = js "D  asf   x".
Proof. reflexivity. Qed.

Example split_example : split 0x2E (js "a.b.") = [js "a"; js "b"; js ""].
Proof. reflexivity. Qed.

Example fileFormatOf_examples :
  fileFormatOf (js "clip.tar.gz") = js "gz"
  /\ fileFormatOf (js "clip") = js "clip"
  /\ fileFormatOf (js "clip.") = js ""
  /\ fileFormatOf (js "") = js "".
Proof. by repeat split. Qed.

Example includes_examples :
  includes (js "DE") (js "E") = true /\ includes (js "D") (js "E") = false
  /\ includes (js "abc") (js "") = true /\ includes (js "abc") (js "bc") = true.
Proof. by repeat split. Qed.

(** The alternation backtracks from D to DE; white space before the name is
    taken by the second [\s+]; a line terminator inside the name, a missing
    name, and the legend lines of the listing do not match. *)
Example exec_examples :
  exec formatLineRegex 3 (js "DE mp4   MP4 (MPEG-4 Part 14)")
  = Some [Some (js "DE mp4   MP4 (MPEG-4 Part 14)"); Some (js "DE"); Some (js "mp4");
          Some (js "MP4 (MPEG-4 Part 14)")]
  /\ exec formatLineRegex 3 (js "D a b" ++ [0x0A] ++ js "c") = None
  /\ exec formatLineRegex 3 (js "D asf") = None
  /\ exec formatLineRegex 3 (js "D. = Demuxing supported") = None
  /\ exec formatLineRegex 3 (js "xD asf ASF") = None.
Proof. by repeat split. Qed.

(** ** What the matcher accepts *)

Module RegExpFacts.

Lemma consumes_refl x : consumes x x.
Proof. exists []. split; [done | simpl; lia]. Qed.

Lemma consumes_trans x y z : consumes x y -> consumes y z -> consumes x z.
Proof.
  intros (w1 & E1 & L1) (w2 & E2 & L2). exists (w1 ++ w2).
  rewrite E1, E2, <- app_assoc, length_app. split; [done | lia].
Qed.

Lemma consumes_length x y :
  consumes x y -> (length (rest x) = length (rest y) + (endIndex y - endIndex x))%nat.
Proof. intros (w & E & L). rewrite E, length_app. lia. Qed.

Lemma matches_iter_consumes :
  (forall r x y, matches r x y -> consumes x y) /\
  (forall r x y, iter r x y -> consumes x y).
Proof.
  apply matches_iter_ind; intros.
  - exists [ch]. split; [done | simpl; lia].
  - exists [ch]. split; [done | simpl; lia].
  - eauto using consumes_trans.
  - done.
  - done.
  - eauto using consumes_trans.
  - done.
  - apply consumes_refl.
  - apply consumes_refl.
  - apply consumes_refl.
  - eauto using consumes_trans.
Qed.

Lemma matches_consumes r x y : matches r x y -> consumes x y.
Proof. apply matches_iter_consumes. Qed.

(** Soundness: a successful run of the matcher went through a state that [r]
    reaches, and the continuation succeeded from there. *)
Lemma RepeatMatcher_sound (m : Matcher) r :
  (forall x c z, m x c = Some z -> exists y, matches r x y /\ c y = Some z) ->
  forall fuel min x c z,
    RepeatMatcher m fuel min x c = Some z ->
    (min = 0%nat -> exists y, iter r x y /\ c y = Some z) /\
    (min = 1%nat -> exists y, matches (Plus r) x y /\ c y = Some z).
Proof.
  intros Hm. induction fuel as [|fuel IH]; intros min x c z H; [discriminate|].
  simpl in H. split; intros ->; simpl in H.
  - destruct (m x _) as [z'|] eqn:E.
    + injection H as ->. apply Hm in E as (y & My & Hd).
      destruct (endIndex y =? endIndex x)%nat eqn:Ei; [discriminate|].
      apply Nat.eqb_neq in Ei. apply IH in Hd as [Hd _].
      destruct (Hd eq_refl) as (y' & Iy & Hc).
      exists y'. split; [eapply I_more; eauto | done].
    + exists x. split; [apply I_stop | done].
  - apply Hm in H as (y & My & Hd). apply IH in Hd as [Hd _].
    destruct (Hd eq_refl) as (y' & Iy & Hc).
    exists y'. split; [eapply M_Plus; eauto | done].
Qed.

Lemma matcher_sound r : forall x c z,
  matcher r x c = Some z -> exists y, matches r x y /\ c y = Some z.
Proof.
  induction r; intros x c z H; cbn [matcher] in H.
  - unfold CharacterSetMatcher in H. destruct (rest x) as [|a t] eqn:E; [discriminate|].
    destruct (ch =? a) eqn:Ea; [|discriminate]. apply N.eqb_eq in Ea as ->.
    exists (advance x t). split; [by apply M_Chr | done].
  - unfold CharacterSetMatcher in H. destruct (rest x) as [|a t] eqn:E; [discriminate|].
    destruct (p a) eqn:Ea; [|discriminate].
    exists (advance x t). split; [by eapply M_Cls | done].
  - apply IHr1 in H as (y & M1 & H). apply IHr2 in H as (y' & M2 & H).
    exists y'. split; [eapply M_Seq; eauto | done].
  - destruct (matcher r1 x c) as [z'|] eqn:E.
    + injection H as ->. apply IHr1 in E as (y & M1 & H).
      exists y. split; [by apply M_AltL | done].
    + apply IHr2 in H as (y & M2 & H). exists y. split; [by apply M_AltR | done].
  - eapply RepeatMatcher_sound in H as [_ H]; [|exact IHr]. by apply H.
  - apply IHr in H as (y & M1 & H). eexists. split; [apply M_Group; eauto | done].
  - destruct (endIndex x =? 0)%nat eqn:E; [|discriminate]. apply Nat.eqb_eq in E.
    exists x. split; [by apply M_Bol | done].
  - destruct (rest x) eqn:E; [|discriminate]. exists x. split; [by apply M_Eol | done].
Qed.

(** Completeness: if [r] reaches a state from which the continuation succeeds,
    the backtracking search succeeds; in particular the fuel of [Plus] is
    never what makes it fail. *)
Lemma matcher_complete :
  (forall r x y, matches r x y ->
     forall c, is_Some (c y) -> is_Some (matcher r x c)) /\
  (forall r x y, iter r x y ->
     forall c fuel, is_Some (c y) -> (1 + length (rest x) <= fuel)%nat ->
     is_Some (RepeatMatcher (matcher r) fuel 0 x c)).
Proof.
  apply matches_iter_ind.
  - intros ch x t E c Hc. cbn [matcher]. unfold CharacterSetMatcher.
    by rewrite E, N.eqb_refl.
  - intros p ch x t E Hp c Hc. cbn [matcher]. unfold CharacterSetMatcher.
    by rewrite E, Hp.
  - intros r1 r2 x y z _ IH1 _ IH2 c Hc. cbn [matcher]. apply IH1, IH2, Hc.
  - intros r1 r2 x y _ IH c Hc. cbn [matcher].
    destruct (IH c Hc) as [z ->]. eauto.
  - intros r1 r2 x y _ IH c Hc. cbn [matcher].
    destruct (matcher r1 x c); [eauto | by apply IH].
  - intros r x y z M IH I IHi c Hc.
    change (is_Some (matcher r x (fun y0 =>
              RepeatMatcher (matcher r) (1 + length (rest x)) 0 y0 c))).
    apply IH. apply IHi; [done|].
    apply matches_consumes, consumes_length in M. lia.
  - intros i r x y _ IH c Hc. cbn [matcher]. by apply IH.
  - intros x E c Hc. cbn [matcher]. by rewrite E.
  - intros x E c Hc. cbn [matcher]. by rewrite E.
  - intros r x c fuel Hc Hf. destruct fuel as [|fuel]; [lia|].
    cbn [RepeatMatcher Nat.eqb]. destruct (matcher r x _); eauto.
  - intros r x y z M IH Hne I IHi c fuel Hc Hf.
    destruct fuel as [|fuel]; [lia|]. cbn [RepeatMatcher Nat.eqb andb].
    match goal with |- is_Some (match ?m with _ => _ end) =>
      assert (is_Some m) as [z' ->]; [|eauto] end.
    apply IH. apply Nat.eqb_neq in Hne. rewrite Hne.
    apply IHi; [done|].
    apply matches_consumes in M. pose proof (consumes_length _ _ M) as L.
    destruct M as (w & _ & Ew). apply Nat.eqb_neq in Hne. lia.
Qed.

Lemma iter_cls_inv p x y :
  iter (Cls p) x y ->
  exists w, all p w /\ rest x = w ++ rest y
            /\ endIndex y = (endIndex x + length w)%nat /\ captures y = captures x.
Proof.
  remember (Cls p) as r eqn:Er. induction 1 as [r x | r x y z M Hne I IH]; subst r.
  - exists []. repeat split; [constructor | simpl; lia].
  - destruct (IH eq_refl) as (w & Hw & Ew & Ei & Ec).
    inversion M as [|p' ch x' t Ex Hp| | | | | | |]; subst. simpl in *.
    exists (ch :: w). repeat split.
    + by constructor.
    + by rewrite Ex, Ew.
    + simpl. lia.
    + done.
Qed.

Lemma plus_cls_inv p x y :
  matches (Plus (Cls p)) x y ->
  exists w, w <> [] /\ all p w /\ rest x = w ++ rest y
            /\ endIndex y = (endIndex x + length w)%nat /\ captures y = captures x.
Proof.
  inversion 1 as [| | | | |r x' y0 z M I| | |]; subst.
  apply iter_cls_inv in I as (w & Hw & Ew & Ei & Ec).
  inversion M as [|p' ch x' t Ex Hp| | | | | | |]; subst. simpl in *.
  exists (ch :: w). repeat split.
  - done.
  - by constructor.
  - by rewrite Ex, Ew.
  - simpl. lia.
  - done.
Qed.

Lemma iter_cls_intro p w : all p w -> forall x t,
  rest x = w ++ t ->
  iter (Cls p) x (mkState (endIndex x + length w) t (captures x)).
Proof.
  induction 1 as [|ch w Hp Hw IH]; intros x t E.
  - simpl in *. rewrite Nat.add_0_r, <- E. destruct x; apply I_stop.
  - eapply I_more.
    + eapply M_Cls; [exact E | exact Hp].
    + simpl. lia.
    + specialize (IH (advance x (w ++ t)) t eq_refl). simpl in *.
      by replace (endIndex x + S (length w))%nat with (S (endIndex x + length w)) by lia.
Qed.

Lemma plus_cls_intro p w : w <> [] -> all p w -> forall x t,
  rest x = w ++ t ->
  matches (Plus (Cls p)) x (mkState (endIndex x + length w) t (captures x)).
Proof.
  intros Hne Hw x t E. destruct w as [|ch w]; [done|].
  inversion Hw as [|? ? Hp Hw']; subst.
  eapply M_Plus.
  - eapply M_Cls; [exact E | exact Hp].
  - pose proof (iter_cls_intro p w Hw' (advance x (w ++ t)) t eq_refl) as I. simpl in *.
    by replace (endIndex x + S (length w))%nat with (S (endIndex x + length w)) by lia.
Qed.

Lemma group_inv i r x z :
  matches (Group i r) x z ->
  exists y w, matches r x y /\ rest x = w ++ rest y
              /\ endIndex y = (endIndex x + length w)%nat
              /\ z = mkState (endIndex y) (rest y) (<[i := Some w]> (captures y)).
Proof.
  inversion 1 as [| | | | | |i' r' x' y M| |]; subst.
  destruct (matches_consumes _ _ _ M) as (w & Ew & Ei).
  exists y, w. repeat split; try done.
  rewrite Ew, Ei. replace (endIndex x + length w - endIndex x)%nat with (length w) by lia.
  by rewrite take_app_length.
Qed.

Lemma seq_inv r1 r2 x z :
  matches (Seq r1 r2) x z -> exists y, matches r1 x y /\ matches r2 y z.
Proof. inversion 1; subst; eauto. Qed.

Lemma alt_inv r1 r2 x y :
  matches (Alt r1 r2) x y -> matches r1 x y \/ matches r2 x y.
Proof. inversion 1; subst; eauto. Qed.

Lemma chr_inv ch x y :
  matches (Chr ch) x y -> exists t, rest x = ch :: t /\ y = advance x t.
Proof. inversion 1; subst; eauto. Qed.

Lemma bol_inv x y : matches Bol x y -> y = x /\ endIndex x = 0%nat.
Proof. inversion 1; subst; eauto. Qed.

Lemma eol_inv x y : matches Eol x y -> y = x /\ rest x = [].
Proof. inversion 1; subst; eauto. Qed.

End RegExpFacts.
Import RegExpFacts.

(** ** The shape of a format line *)

Lemma flagsRegex_inv x y :
  matches flagsRegex x y ->
  exists w, w ∈ flags /\ rest x = w ++ rest y
            /\ endIndex y = (endIndex x + length w)%nat /\ captures y = captures x.
Proof.
  intros H. apply alt_inv in H as [H|H]; [|apply alt_inv in H as [H|H]].
  - apply chr_inv in H as (t & E & ->). exists (js "D").
    repeat split; [unfold flags; rewrite !elem_of_cons; tauto | done | simpl; lia].
  - apply seq_inv in H as (y' & H1 & H2).
    apply chr_inv in H1 as (t & E & ->). apply chr_inv in H2 as (t' & E' & ->).
    simpl in *. subst t. exists (js "DE").
    repeat split; [unfold flags; rewrite !elem_of_cons; tauto | done | simpl; lia].
  - apply chr_inv in H as (t & E & ->). exists (js "E").
    repeat split; [unfold flags; rewrite !elem_of_cons; tauto | done | simpl; lia].
Qed.

Lemma flagsRegex_intro w x t :
  w ∈ flags -> rest x = w ++ t ->
  matches flagsRegex x (mkState (endIndex x + length w) t (captures x)).
Proof.
  intros Hw E. unfold flags in Hw.
  rewrite !elem_of_cons, elem_of_nil in Hw. destruct Hw as [->|[->|[->|[]]]].
  - apply M_AltL. replace (endIndex x + _)%nat with (S (endIndex x)) by (simpl; lia).
    by apply (M_Chr _ x t).
  - apply M_AltR, M_AltL. eapply M_Seq.
    + by apply (M_Chr _ x (0x45 :: t)).
    + replace (endIndex x + _)%nat with (S (S (endIndex x))) by (simpl; lia).
      by apply (M_Chr _ (advance x (0x45 :: t)) t).
  - apply M_AltR, M_AltR. replace (endIndex x + _)%nat with (S (endIndex x)) by (simpl; lia).
    by apply (M_Chr _ x t).
Qed.

Lemma formatLineRegex_inv s caps y :
  matches formatLineRegex (mkState 0 s caps) y ->
  exists support abbr nm,
    formatLine s support abbr nm
    /\ captures y = <[3%nat := Some nm]> (<[2%nat := Some abbr]> (<[1%nat := Some support]> caps))
    /\ endIndex y = length s.
Proof.
  intros H. unfold formatLineRegex in H. fold flagsRegex in H.
  apply seq_inv in H as (x1 & Hbol & H). apply bol_inv in Hbol as [-> _].
  apply seq_inv in H as (x2 & Hg1 & H).
  apply seq_inv in H as (x3 & Hs1 & H).
  apply seq_inv in H as (x4 & Hg2 & H).
  apply seq_inv in H as (x5 & Hs2 & H).
  apply seq_inv in H as (x6 & Hg3 & Heol).
  apply eol_inv in Heol as [-> Hend].
  apply group_inv in Hg1 as (y1 & support & Hf & E1 & I1 & ->).
  apply flagsRegex_inv in Hf as (support' & Hsup & E1' & I1' & C1).
  apply plus_cls_inv in Hs1 as (ws1 & N1 & A1 & Ews1 & Iws1 & Cws1).
  apply group_inv in Hg2 as (y2 & abbr & Hp2 & E2 & I2 & ->).
  apply plus_cls_inv in Hp2 as (abbr' & N2 & A2 & E2' & I2' & C2).
  apply plus_cls_inv in Hs2 as (ws2 & N3 & A3 & Ews2 & Iws2 & Cws2).
  apply group_inv in Hg3 as (y3 & nm & Hp3 & E3 & I3 & ->).
  apply plus_cls_inv in Hp3 as (nm' & N4 & A4 & E3' & I3' & C3).
  simpl in *.
  assert (support' = support) as ->
    by (rewrite E1' in E1; by apply app_inv_tail in E1).
  assert (abbr' = abbr) as ->
    by (rewrite E2' in E2; by apply app_inv_tail in E2).
  assert (nm' = nm) as ->
    by (rewrite E3' in E3; by apply app_inv_tail in E3).
  exists support, abbr, nm. split; [|split].
  - exists ws1, ws2. rewrite E1, Ews1, E2, Ews2, E3, Hend, app_nil_r. by repeat split.
  - by rewrite C3, Cws2, C2, Cws1, C1.
  - rewrite I3, Iws2, I2, Iws1, I1, E1, Ews1, E2, Ews2, E3, Hend, app_nil_r, !length_app. lia.
Qed.

Lemma formatLineRegex_intro s support abbr nm caps :
  formatLine s support abbr nm ->
  exists y, matches formatLineRegex (mkState 0 s caps) y.
Proof.
  intros (ws1 & ws2 & -> & Hsup & N1 & A1 & N2 & A2 & N3 & A3 & N4 & A4).
  eexists. unfold formatLineRegex. fold flagsRegex.
  eapply M_Seq; [by apply M_Bol|].
  eapply M_Seq; [apply M_Group, flagsRegex_intro; [exact Hsup|reflexivity]|].
  eapply M_Seq; [apply plus_cls_intro; [exact N1|exact A1|reflexivity]|].
  eapply M_Seq; [apply M_Group, plus_cls_intro; [exact N2|exact A2|reflexivity]|].
  eapply M_Seq; [apply plus_cls_intro; [exact N3|exact A3|reflexivity]|].
  eapply M_Seq; [apply M_Group, (plus_cls_intro _ nm); [exact N4|exact A4|]|].
  - simpl. by rewrite app_nil_r.
  - by apply M_Eol.
Qed.

(** ** [exec] on the format line pattern *)

Lemma execFrom_Bol_later r n i s : execFrom (Seq Bol r) n (S i) s = None.
Proof. revert i. induction s as [|ch s IH]; intros i; simpl; [done | apply IH]. Qed.

Lemma exec_formatLine_inv s m :
  exec formatLineRegex 3 s = Some m ->
  exists support abbr nm,
    formatLine s support abbr nm
    /\ m = [Some s; Some support; Some abbr; Some nm].
Proof.
  unfold exec. intros H.
  assert (exists y, matcher formatLineRegex (mkState 0 s (replicate 4 None)) Some = Some y
                    /\ m = <[0%nat := Some (take (endIndex y - 0) s)]> (captures y))
    as (y & Hy & ->).
  { destruct s as [|ch s]; cbn [execFrom] in H;
      destruct (matcher formatLineRegex _ Some) as [y|] eqn:E.
    - injection H as <-. eauto.
    - discriminate.
    - injection H as <-. eauto.
    - unfold formatLineRegex in H. by rewrite execFrom_Bol_later in H. }
  apply matcher_sound in Hy as (y' & M & [= ->]).
  apply formatLineRegex_inv in M as (support & abbr & nm & Hshape & -> & ->).
  exists support, abbr, nm. split; [done|].
  by rewrite Nat.sub_0_r, firstn_all.
Qed.

Lemma exec_formatLine_intro s support abbr nm :
  formatLine s support abbr nm -> is_Some (exec formatLineRegex 3 s).
Proof.
  intros H. apply (formatLineRegex_intro _ _ _ _ (replicate 4 None)) in H as (y & M).
  destruct (proj1 matcher_complete _ _ _ M Some) as [z Hz]; [eauto|].
  unfold exec. destruct s; cbn [execFrom]; rewrite Hz; eauto.
Qed.

(** The flags of a format line are determined by the line. *)
Lemma formatLine_support_unique s support abbr nm support' abbr' nm' :
  formatLine s support abbr nm -> formatLine s support' abbr' nm' -> support = support'.
Proof.
  intros (ws1 & ws2 & -> & Hs & N1 & A1 & _) (ws1' & ws2' & E & Hs' & N1' & A1' & _).
  destruct ws1 as [|c ws1]; [done|]. destruct ws1' as [|c' ws1']; [done|].
  apply Forall_cons in A1 as [A1 _]. apply Forall_cons in A1' as [A1' _].
  unfold flags in Hs, Hs'. rewrite !elem_of_cons, elem_of_nil in Hs, Hs'.
  destruct Hs as [->|[->|[->|[]]]], Hs' as [->|[->|[->|[]]]];
    try done; simpl in E; injection E as E; subst; discriminate.
Qed.

Lemma run_unique p w : forall w' c t c' t',
  all p w -> all p w' -> p c = false -> p c' = false ->
  w ++ c :: t = w' ++ c' :: t' -> w = w' /\ c :: t = c' :: t'.
Proof.
  induction w as [|a w IH]; intros [|a' w'] c t c' t' Hw Hw' Hc Hc' E; simpl in E.
  - done.
  - injection E as -> _. apply Forall_cons in Hw' as [Ha _]. congruence.
  - injection E as -> _. apply Forall_cons in Hw as [Ha _]. congruence.
  - injection E as -> E. apply Forall_cons in Hw as [_ Hw].
    apply Forall_cons in Hw' as [_ Hw'].
    destruct (IH _ _ _ _ _ Hw Hw' Hc Hc' E) as [-> ->]. done.
Qed.

(** So is the abbreviation.  (The name is not: it may begin with a space that
    the second run of white space could take as well.) *)
Lemma formatLine_abbr_unique s support abbr nm support' abbr' nm' :
  formatLine s support abbr nm -> formatLine s support' abbr' nm' -> abbr = abbr'.
Proof.
  intros H H'. pose proof (formatLine_support_unique _ _ _ _ _ _ _ H H') as <-.
  destruct H as (ws1 & ws2 & -> & _ & _ & A1 & N2 & A2 & N3 & A3 & _).
  destruct H' as (ws1' & ws2' & E & _ & _ & A1' & N2' & A2' & N3' & A3' & _).
  apply app_inv_head in E.
  destruct abbr as [|a abbr]; [done|]. destruct abbr' as [|a' abbr']; [done|].
  destruct ws2 as [|c ws2]; [done|]. destruct ws2' as [|c' ws2']; [done|].
  assert (isSpace a = false) as Ha.
  { apply Forall_cons in A2 as [Ha _]. unfold notSpace in Ha. by destruct (isSpace a). }
  assert (isSpace a' = false) as Ha'.
  { apply Forall_cons in A2' as [Ha' _]. unfold notSpace in Ha'. by destruct (isSpace a'). }
  simpl in E.
  destruct (run_unique isSpace _ _ _ _ _ _ A1 A1' Ha Ha' E) as [_ E'].
  change (a :: abbr ++ c :: ws2 ++ nm) with ((a :: abbr) ++ c :: ws2 ++ nm) in E'.
  change (a' :: abbr' ++ c' :: ws2' ++ nm') with ((a' :: abbr') ++ c' :: ws2' ++ nm') in E'.
  apply Forall_cons in A3 as [Hc _]. apply Forall_cons in A3' as [Hc' _].
  eapply (run_unique notSpace) in E' as [E' _]; try done; unfold notSpace.
  - by rewrite Hc.
  - by rewrite Hc'.
Qed.

Lemma startsWith_nil s : startsWith s [] = true.
Proof. by destruct s. Qed.

Lemma includes_singleton s ch : includes s [ch] = true <-> ch ∈ s.
Proof.
  induction s as [|a s IH]; simpl.
  - rewrite elem_of_nil. split; [discriminate | done].
  - rewrite startsWith_nil, andb_true_r, orb_true_iff, IH, N.eqb_eq, elem_of_cons.
    split; intros [?|?]; auto.
Qed.

(** ** The parser as a filter *)

Lemma descriptorOf_Some line f :
  descriptorOf line = Some f <->
  exists support abbr nm,
    formatLine (trim line) support abbr nm
    /\ exec formatLineRegex 3 (trim line)
       = Some [Some (trim line); Some support; Some abbr; Some nm]
    /\ f = mkFormat (includes support (js "D")) (includes support (js "E")) abbr nm.
Proof.
  unfold descriptorOf. split.
  - destruct (exec formatLineRegex 3 (trim line)) as [m|] eqn:E; [|done].
    apply exec_formatLine_inv in E as (support & abbr & nm & Hs & ->).
    intros [= <-]. by exists support, abbr, nm.
  - intros (support & abbr & nm & _ & -> & ->). done.
Qed.

Lemma descriptorOf_None line :
  descriptorOf line = None <-> exec formatLineRegex 3 (trim line) = None.
Proof.
  unfold descriptorOf. split.
  - destruct (exec formatLineRegex 3 (trim line)) as [m|] eqn:E; [|done].
    apply exec_formatLine_inv in E as (support & abbr & nm & Hs & ->). done.
  - by intros ->.
Qed.

Lemma descriptorOf_shape line :
  is_Some (descriptorOf line) <->
  exists support abbr nm, formatLine (trim line) support abbr nm.
Proof.
  split.
  - intros [f Hf]. apply descriptorOf_Some in Hf as (support & abbr & nm & Hs & _).
    eauto.
  - intros (support & abbr & nm & Hs).
    destruct (descriptorOf line) as [f|] eqn:E; [eauto|].
    apply descriptorOf_None in E. apply exec_formatLine_intro in Hs as [m Hm]. congruence.
Qed.

Lemma formatLine_startsWithFlags s support abbr nm :
  formatLine s support abbr nm -> startsWithFlags s.
Proof.
  intros (ws1 & ws2 & -> & Hs & N1 & A1 & _).
  destruct ws1 as [|c ws1]; [done|]. apply Forall_cons in A1 as [A1 _].
  exists support, c, (ws1 ++ abbr ++ ws2 ++ nm). done.
Qed.

Lemma getFormatsFromLog_loop_spec logMessages : forall results,
  getFormatsFromLog_loop logMessages results
  = Normal (results ++ omap descriptorOf logMessages).
Proof.
  induction logMessages as [|line logMessages IH]; intros results.
  - simpl. by rewrite app_nil_r.
  - cbn [getFormatsFromLog_loop omap list_omap]. unfold test, match_.
    destruct (descriptorOf line) as [f|] eqn:E.
    + apply descriptorOf_Some in E as (support & abbr & nm & _ & -> & ->).
      rewrite bool_decide_true by eauto. cbn. rewrite IH. by rewrite <- app_assoc.
    + apply descriptorOf_None in E. rewrite E.
      rewrite bool_decide_false by (by intros [? ?]). cbn. apply IH.
Qed.

Lemma getFormatsFromLog_spec logMessages :
  getFormatsFromLog logMessages = Normal (omap descriptorOf logMessages).
Proof. apply getFormatsFromLog_loop_spec. Qed.

Lemma length_omap_le {A B} (f : A -> option B) l : (length (omap f l) <= length l)%nat.
Proof.
  induction l as [|a l IH]; [done|]. cbn [omap list_omap].
  fold (omap f l). destruct (f a); simpl; lia.
Qed.

Lemma length_omap_lt {A B} (f : A -> option B) l a :
  a ∈ l -> f a = None -> (length (omap f l) < length l)%nat.
Proof.
  induction l as [|b l IH]; [by rewrite elem_of_nil|].
  rewrite elem_of_cons. intros [<-|Hin] Hf; cbn [omap list_omap]; fold (omap f l).
  - rewrite Hf. pose proof (length_omap_le f l). simpl. lia.
  - specialize (IH Hin Hf). destruct (f b); simpl; lia.
Qed.

(** C5: the parser maps the two lines of the specification to the stated
    descriptors; in general a line is parsed exactly when its trimmed form has
    the shape flags, white space, abbreviation, white space, name with flags
    D, DE or E, and then [demuxingSupported] holds iff the flags contain 'D'
    and [muxingSupported] iff they contain 'E'. *)
Theorem parser_descriptor :
  getFormatsFromLog [js "D  asf    ASF (Advanced Streaming Format)"]
  = Normal [mkFormat true false (js "asf") (js "ASF (Advanced Streaming Format)")]
  /\ getFormatsFromLog [js "DE mp4    MP4 (MPEG-4 Part 14)"]
     = Normal [mkFormat true true (js "mp4") (js "MP4 (MPEG-4 Part 14)")]
  /\ forall line,
       (is_Some (match_ (trim line) formatLineRegex 3)
        <-> exists support abbr nm, formatLine (trim line) support abbr nm)
       /\ forall support abbr nm,
            formatLine (trim line) support abbr nm ->
            exists f, getFormatsFromLog [line] = Normal [f]
                      /\ abbreviation f = abbr
                      /\ (demuxingSupported f = true <-> 0x44 ∈ support)
                      /\ (muxingSupported f = true <-> 0x45 ∈ support).
Proof.
  split; [by vm_compute|]. split; [by vm_compute|].
  intros line. split.
  - rewrite <- descriptorOf_shape. unfold match_.
    destruct (descriptorOf line) as [f|] eqn:E.
    + apply descriptorOf_Some in E as (? & ? & ? & _ & -> & _). split; eauto.
    + apply descriptorOf_None in E. rewrite E. split; intros [? ?]; done.
  - intros support abbr nm Hs.
    destruct (proj2 (descriptorOf_shape line)) as [f Hf]; [eauto|].
    exists f. rewrite getFormatsFromLog_spec. cbn. rewrite Hf. split; [done|].
    apply descriptorOf_Some in Hf as (support' & abbr' & nm' & Hs' & _ & ->).
    cbn [abbreviation demuxingSupported muxingSupported].
    assert (support' = support) as -> by eauto using formatLine_support_unique.
    change (js "D") with [0x44]. change (js "E") with [0x45].
    rewrite !includes_singleton. split; [|done].
    eauto using formatLine_abbr_unique.
Qed.

Lemma all_forallb p w : forallb p w = true -> all p w.
Proof.
  induction w as [|ch w IH]; simpl; [constructor|].
  rewrite andb_true_iff. intros [Hp Hw]. constructor; [done | by apply IH].
Qed.

Lemma parser_descriptor_witness :
  let line := js " DE mp4    MP4 (MPEG-4 Part 14) " in
  formatLine (trim line) (js "DE") (js "mp4") (js "MP4 (MPEG-4 Part 14)")
  /\ exists f, getFormatsFromLog [line] = Normal [f]
               /\ abbreviation f = js "mp4"
               /\ (demuxingSupported f = true <-> 0x44 ∈ js "DE")
               /\ (muxingSupported f = true <-> 0x45 ∈ js "DE").
Proof.
  intros line.
  assert (formatLine (trim line) (js "DE") (js "mp4") (js "MP4 (MPEG-4 Part 14)")) as Hs.
  { exists (js " "), (js "    ").
    split; [vm_compute; reflexivity|].
    split; [unfold flags; rewrite !elem_of_cons; tauto|].
    repeat split;
      first [ apply all_forallb; vm_compute; reflexivity
            | intros E; vm_compute in E; discriminate E ]. }
  split; [exact Hs|].
  destruct parser_descriptor as (_ & _ & H). destruct (H line) as [_ H'].
  exact (H' _ _ _ Hs).
Defined.

(** C6: the parser never throws; its result is the descriptors of the matching
    lines in input order, empty when no line matches; a line whose trimmed
    form does not begin with D, DE or E and white space contributes nothing;
    and the result is strictly shorter than the input as soon as one line does
    not match. *)
Theorem parser_total_ordered (logMessages : list jsstring) :
  exists results,
    getFormatsFromLog logMessages = Normal results
    /\ results = omap descriptorOf logMessages
    /\ (Forall (fun line => descriptorOf line = None) logMessages -> results = [])
    /\ (forall line, ~ startsWithFlags (trim line) -> descriptorOf line = None)
    /\ (length results <= length logMessages)%nat
    /\ (forall line, line ∈ logMessages -> descriptorOf line = None ->
          (length results < length logMessages)%nat)
    /\ (forall line, line ∈ logMessages -> ~ startsWithFlags (trim line) ->
          (length results < length logMessages)%nat).
Proof.
  assert (forall line, ~ startsWithFlags (trim line) -> descriptorOf line = None) as Hex.
  { intros line Hn. destruct (descriptorOf line) as [f|] eqn:E; [|done].
    destruct Hn. apply descriptorOf_Some in E as (support & abbr & nm & Hs & _).
    eauto using formatLine_startsWithFlags. }
  exists (omap descriptorOf logMessages).
  split; [apply getFormatsFromLog_spec|]. split; [done|]. split; [|split; [done|]].
  - induction 1 as [|line l Hl _ IH]; [done|].
    cbn [omap list_omap]. by rewrite Hl.
  - split; [apply length_omap_le|]. split.
    + intros line Hin Hn. by eapply length_omap_lt.
    + intros line Hin Hn. eapply length_omap_lt; eauto.
Qed.

Lemma parser_total_ordered_witness :
  let logMessages := [js "File formats:"; js " D  asf    ASF"; js " --"] in
  (js " --" ∈ logMessages /\ ~ startsWithFlags (trim (js " --")))
  /\ exists results, getFormatsFromLog logMessages = Normal results
                     /\ (length results < length logMessages)%nat.
Proof.
  intros logMessages.
  assert (js " --" ∈ logMessages) as Hin
    by (apply (list_elem_of_lookup_2 _ 2); reflexivity).
  assert (~ startsWithFlags (trim (js " --"))) as Hn.
  { intros (support & ch & t' & Hs & _ & E). unfold flags in Hs.
    rewrite !elem_of_cons, elem_of_nil in Hs.
    destruct Hs as [->|[->|[->|[]]]]; vm_compute in E; discriminate. }
  split; [split; [exact Hin | exact Hn]|].
  destruct (parser_total_ordered logMessages) as (results & H1 & _ & _ & _ & _ & _ & H7).
  exists results. split; [exact H1 | exact (H7 _ Hin Hn)].
Defined.

(** ** Listeners *)

Lemma sameControl_refl s : sameControl s s.
Proof. by repeat split. Qed.

Lemma sameControl_trans s1 s2 s3 :
  sameControl s1 s2 -> sameControl s2 s3 -> sameControl s1 s3.
Proof. unfold sameControl. intuition congruence. Qed.

Lemma handle_sameControl l ev s : sameControl s (handle l ev s).
Proof. destruct l, ev; by repeat split. Qed.

Lemma emit_sameControl ev s : sameControl s (emit ev s).
Proof.
  unfold emit. generalize (listeners s) as ls. intros ls. revert s.
  induction ls as [|l ls IH]; intros s; simpl; [apply sameControl_refl|].
  eapply sameControl_trans; [apply handle_sameControl | apply IH].
Qed.

Lemma deliverAll_sameControl evs s : sameControl s (deliverAll evs s).
Proof.
  unfold deliverAll. revert s.
  induction evs as [|ev evs IH]; intros s; simpl; [apply sameControl_refl|].
  eapply sameControl_trans; [apply emit_sameControl | apply IH].
Qed.

Lemma deliverAll_status evs s : status (deliverAll evs s) = status s.
Proof. apply deliverAll_sameControl. Qed.
Lemma deliverAll_error evs s : error (deliverAll evs s) = error s.
Proof. apply deliverAll_sameControl. Qed.
Lemma deliverAll_formats evs s : formats (deliverAll evs s) = formats s.
Proof. apply deliverAll_sameControl. Qed.
Lemma deliverAll_selectedOutputFormat evs s :
  selectedOutputFormat (deliverAll evs s) = selectedOutputFormat s.
Proof. apply deliverAll_sameControl. Qed.
Lemma deliverAll_downloads evs s : downloads (deliverAll evs s) = downloads s.
Proof. apply deliverAll_sameControl. Qed.
Lemma deliverAll_listeners evs s : listeners (deliverAll evs s) = listeners s.
Proof. apply deliverAll_sameControl. Qed.

Create Rewrite HintDb store.
#[global] Hint Rewrite deliverAll_status deliverAll_error deliverAll_formats
  deliverAll_selectedOutputFormat deliverAll_downloads deliverAll_listeners : store.

Ltac frames :=
  cbn [status error formats selectedOutputFormat downloads listeners progress
       loggedFormats console set_status set_error set_formats set_selectedOutputFormat set_downloads
       set_listeners set_progress set_loggedFormats set_console download on];
  autorewrite with store;
  cbn [status error formats selectedOutputFormat downloads listeners progress
       loggedFormats console set_status set_error set_formats set_selectedOutputFormat set_downloads
       set_listeners set_progress set_loggedFormats set_console download on].

(** ** The drop handler *)

Lemma startsWith_app p t : startsWith (p ++ t) p = true.
Proof. induction p as [|a p IH]; simpl; [apply startsWith_nil|]. by rewrite N.eqb_refl. Qed.

Lemma endsWith_app pre w : endsWith (pre ++ w) w = true.
Proof. unfold endsWith. rewrite reverse_app. apply startsWith_app. Qed.

Lemma endsWith_nil s : endsWith s [] = true.
Proof. unfold endsWith. apply startsWith_nil. Qed.

(** The last piece of [s.split(sep)] is a suffix of [s]. *)
Lemma split_last sep s :
  exists ws w pre, split sep s = ws ++ [w] /\ s = pre ++ w /\ (ws = [] -> pre = []).
Proof.
  induction s as [|c t (ws & w & pre & E & Et & Hpre)]; simpl.
  - by exists [], [], [].
  - destruct (c =? sep).
    + exists ([] :: ws), w, (c :: pre). rewrite E, Et. done.
    + rewrite E. destruct ws as [|w1 ws]; simpl.
      * exists [], (c :: w), []. rewrite Et, Hpre by done. done.
      * exists ((c :: w1) :: ws), w, (c :: pre). rewrite Et. done.
Qed.

(** [file.name.endsWith(fileFormat)] is true of every file name, so the
    callback of [find] holds of every format. *)
Lemma endsWith_fileFormatOf fileName : endsWith fileName (fileFormatOf fileName) = true.
Proof.
  unfold fileFormatOf, pop.
  destruct (split_last 0x2E fileName) as (ws & w & pre & -> & E & _).
  rewrite last_snoc. destruct (truthy w); [|apply endsWith_nil].
  rewrite E at 1. apply endsWith_app.
Qed.

Lemma find_true {A} (p : A -> bool) l :
  (forall a, p a = true) -> List.find p l = head l.
Proof. intros Hp. destruct l as [|a l]; simpl; [done|]. by rewrite Hp. Qed.

Lemma head_filter_existsb {A} (p : A -> bool) l :
  is_Some (head (List.filter p l)) <-> existsb p l = true.
Proof.
  induction l as [|a l IH]; simpl.
  - split; [by intros [? ?] | done].
  - destruct (p a); simpl; [split; eauto | done].
Qed.

Lemma onDropped_single event file s :
  filesOf event = [file] ->
  onDropped event s =
    if accepted (File.name file) (formats s) then
      bind (convertVideo file s) (fun data s =>
        match data with
        | None => Return tt s
        | Some data => Return tt (download data s)
        end)
    else
      Return tt (set_error (js "Data format " ++ fileFormatOf (File.name file)
                            ++ js " not supported") s).
Proof.
  intros E. unfold onDropped, accepted. rewrite E. cbn [length Nat.eqb Nat.ltb Nat.leb lookup list_lookup].
  rewrite find_true by (intros; apply endsWith_fileFormatOf).
  destruct (truthy (fileFormatOf (File.name file))); cbn [negb orb andb]; [|done].
  destruct (existsb demuxingSupported (formats s)) eqn:Ex.
  - rewrite bool_decide_true by (by apply head_filter_existsb). done.
  - rewrite bool_decide_false; [done|]. rewrite head_filter_existsb. congruence.
Qed.

Lemma onDropped_cases event s :
  (filesOf event = [] /\ onDropped event s = Return tt s)
  \/ ((1 < length (filesOf event))%nat
      /\ onDropped event s = Return tt (set_error (js "Only one file is allowed") s))
  \/ (exists file, filesOf event = [file]).
Proof.
  unfold onDropped. destruct (filesOf event) as [|file [|file' l]]; simpl.
  - by left.
  - right; right. eauto.
  - right; left. split; [lia | done].
Qed.

(** C7: a drop of more than one file, in any state, returns at once: no call
    is made to the engine, [status] is unchanged and [error] is
    "Only one file is allowed". *)
Theorem multi_file_drop (h : Host) (e : HState h) (event : DragEvent) (s : Store) :
  (1 < length (filesOf event))%nat ->
  let r := run h (onDropped event s) e in
  onDropped event s = Return tt (set_error (js "Only one file is allowed") s)
  /\ trace r = []
  /\ result r = Some tt
  /\ hostAfter r = e
  /\ status (final r) = status s
  /\ error (final r) = js "Only one file is allowed"
  /\ final r = set_error (js "Only one file is allowed") s.
Proof.
  intros Hlen r. subst r.
  destruct (onDropped_cases event s) as [[E _]|[[_ E]|[file E]]].
  - rewrite E in Hlen. simpl in Hlen. lia.
  - rewrite E. by repeat split.
  - rewrite E in Hlen. simpl in Hlen. lia.
Qed.

Lemma multi_file_drop_witness :
  let event := Mock.drop [js "a.webm"; js "b.webm"] in
  let s := set_status convert_done initialStore in
  (1 < length (filesOf event))%nat
  /\ status (final (run (Mock.engine [] [] 0 []) (onDropped event s) [])) = convert_done
  /\ error (final (run (Mock.engine [] [] 0 []) (onDropped event s) []))
     = js "Only one file is allowed".
Proof.
  intros event s. split; [simpl; lia|].
  pose proof (multi_file_drop (Mock.engine [] [] 0 []) [] event s) as H.
  destruct H as (_ & _ & _ & _ & H1 & H2 & _); [simpl; lia|]. split; [exact H1 | exact H2].
Defined.

(** ** Runs of a conversion *)

Lemma elem_of_deliveries o c evs s :
  o ∈ deliveries c evs s -> exists ev s', o = Delivered c ev s'.
Proof.
  revert s. induction evs as [|ev evs IH]; intros s; simpl.
  - by rewrite elem_of_nil.
  - rewrite elem_of_cons. intros [->|H]; eauto.
Qed.

Ltac job_cases h :=
  unfold convertVideo, fetchFile; cbn [bind run];
  repeat (first
    [ match goal with
      | |- context [answer h ?c ?e] =>
          destruct (answer h c e) as [[? [?|]] ?] eqn:?
      end
    | match goal with
      | |- context [(?x =? 0)%Z] => destruct (Z.eqb_spec x 0)
      end ];
    cbn [negb bind run trace result final hostAfter toValue]).

Ltac trace_cases H :=
  repeat first
    [ rewrite elem_of_cons in H
    | rewrite elem_of_app in H
    | rewrite elem_of_nil in H ];
  repeat match type of H with
  | _ \/ _ => destruct H as [H|H]
  end;
  try discriminate H;
  try (apply elem_of_deliveries in H as (? & ? & H); discriminate H);
  try (destruct H; fail).

Section Conversion.

Variable h : Host.

Lemma job_failed file s e argv code :
  Fulfilled (Exec argv) (VNumber code) ∈ trace (run h (job file s) e) ->
  code <> 0%Z ->
  let r := run h (job file s) e in
  result r = Some tt /\ status (final r) = convert_error
  /\ error (final r) = js "Failed to convert video"
  /\ downloads (final r) = downloads s.
Proof.
  intros H Hc. cbv zeta. revert H. unfold job. job_cases h; intros H; trace_cases H.
  all: injection H as _ ->; try done.
  by repeat split; frames.
Qed.

Lemma job_done file s e argv path data :
  Fulfilled (Exec argv) (VNumber 0) ∈ trace (run h (job file s) e) ->
  Fulfilled (ReadFile path) (VBytes data) ∈ trace (run h (job file s) e) ->
  let r := run h (job file s) e in
  result r = Some tt /\ status (final r) = convert_done
  /\ path = js "output.mp4"
  /\ downloads (final r)
     = downloads s ++ [mkDownload (js "video/mp4") (js "output.mp4") data].
Proof.
  intros H H'. cbv zeta. revert H H'. unfold job.
  job_cases h; intros H H'; trace_cases H; trace_cases H'.
  injection H' as -> ->. by repeat split; frames.
Qed.

Lemma job_entry file s e :
  exists D, trace (run h (job file s) e)
            = Suspended (set_error (js "") (set_status convert_start s)) (ArrayBuffer file) :: D.
Proof. unfold job. job_cases h; eauto. Qed.

End Conversion.

Lemma onDropped_run_cases (h : Host) (e : HState h) event s :
  trace (run h (onDropped event s) e) = []
  \/ exists file, filesOf event = [file]
                  /\ accepted (File.name file) (formats s) = true
                  /\ onDropped event s = job file s.
Proof.
  destruct (onDropped_cases event s) as [[_ E]|[[_ E]|[file E]]].
  - left. by rewrite E.
  - left. by rewrite E.
  - rewrite (onDropped_single _ _ _ E).
    destruct (accepted (File.name file) (formats s)) eqn:Ea; [right; eauto | by left].
Qed.

(** A file whose extension is the abbreviation of a demuxable format passes
    the test of [onDropped]. *)
Lemma supported_accepted fileName fs f :
  fileFormatOf fileName <> [] -> f ∈ fs -> demuxingSupported f = true ->
  accepted fileName fs = true.
Proof.
  intros Hne Hin Hd. unfold accepted, truthy, JS.eqb.
  rewrite bool_decide_false by done. cbn [negb andb].
  apply existsb_exists. exists f. by rewrite <- list_elem_of_In.
Qed.

(** C4: in every run of the drop handler, an [exec] that returns a non-zero
    code ends the job in [convert.error] with the message
    "Failed to convert video" and no download; an [exec] that returns 0
    followed by a successful [readFile] ends it in [convert.done]; and a
    single file whose extension names a demuxable format enters
    [convert.start] with [error] cleared, whatever the state before
    (so also from [convert.done] and [convert.error]). *)
Theorem conversion_outcome (h : Host) (e : HState h) (event : DragEvent) (s : Store) :
  let r := run h (onDropped event s) e in
  (forall argv code,
     Fulfilled (Exec argv) (VNumber code) ∈ trace r -> code <> 0%Z ->
     result r = Some tt /\ status (final r) = convert_error
     /\ error (final r) = js "Failed to convert video" /\ error (final r) <> []
     /\ downloads (final r) = downloads s)
  /\ (forall argv path data,
        Fulfilled (Exec argv) (VNumber 0) ∈ trace r ->
        Fulfilled (ReadFile path) (VBytes data) ∈ trace r ->
        result r = Some tt /\ status (final r) = convert_done)
  /\ (forall file f,
        filesOf event = [file] -> fileFormatOf (File.name file) <> [] ->
        f ∈ formats s -> demuxingSupported f = true ->
        abbreviation f = fileFormatOf (File.name file) ->
        exists s' D, trace r = Suspended s' (ArrayBuffer file) :: D
                     /\ status s' = convert_start /\ error s' = []).
Proof.
  intros r. subst r. split; [|split].
  - intros argv code H Hc.
    destruct (onDropped_run_cases h e event s) as [E|(file & _ & _ & E)].
    + rewrite E in H. by apply elem_of_nil in H.
    + rewrite E in *. destruct (job_failed h file s e argv code H Hc) as (? & ? & He & ?).
      repeat split; try done. by rewrite He.
  - intros argv path data H H'.
    destruct (onDropped_run_cases h e event s) as [E|(file & _ & _ & E)].
    + rewrite E in H. by apply elem_of_nil in H.
    + rewrite E in *. destruct (job_done h file s e argv path data H H') as (? & ? & _).
      done.
  - intros file f Ef Hne Hin Hd _.
    rewrite (onDropped_single _ _ _ Ef), (supported_accepted _ _ f) by done.
    destruct (job_entry h file s e) as [D E]. fold (job file s). rewrite E.
    by eexists _, D.
Qed.

Lemma conversion_outcome_witness :
  let s := final (run Mock.failing (loadFFmpeg initialStore) []) in
  let r := run Mock.failing (onDropped (Mock.drop [js "clip.asf"]) s) [] in
  (Fulfilled (Exec [js "-i"; js "input.webm"; js "output.mp4"]) (VNumber 1) ∈ trace r
   /\ 1%Z <> 0%Z)
  /\ status (final r) = convert_error
  /\ error (final r) = js "Failed to convert video".
Proof.
  intros s r.
  assert (Fulfilled (Exec [js "-i"; js "input.webm"; js "output.mp4"]) (VNumber 1) ∈ trace r)
    as Hin by (apply (list_elem_of_lookup_2 _ 6); vm_compute; reflexivity).
  split; [split; [exact Hin | lia]|].
  destruct (conversion_outcome Mock.failing [] (Mock.drop [js "clip.asf"]) s) as [H _].
  destruct (H _ _ Hin ltac:(lia)) as (_ & H1 & H2 & _). split; [exact H1 | exact H2].
Defined.

(** C9: in every run of the drop handler in which [exec] returns 0 and the
    read succeeds, exactly one download is triggered, named "output.mp4" with
    type "video/mp4" and carrying the bytes read, whatever output format is
    selected. *)
Theorem download_artifact_fixed (h : Host) (e : HState h) (event : DragEvent)
    (s : Store) (fmt : jsstring) :
  let r := run h (onDropped event (set_selectedOutputFormat fmt s)) e in
  forall argv path data,
    Fulfilled (Exec argv) (VNumber 0) ∈ trace r ->
    Fulfilled (ReadFile path) (VBytes data) ∈ trace r ->
    status (final r) = convert_done
    /\ downloads (final r)
       = downloads s ++ [mkDownload (js "video/mp4") (js "output.mp4") data].
Proof.
  intros r argv path data H H'. subst r.
  destruct (onDropped_run_cases h e event (set_selectedOutputFormat fmt s))
    as [E|(file & _ & _ & E)].
  - rewrite E in H. by apply elem_of_nil in H.
  - rewrite E in *. destruct (job_done h file _ e argv path data H H') as (_ & ? & _ & ?).
    done.
Qed.

Lemma download_artifact_fixed_witness :
  let s := final (run Mock.mp4First (loadFFmpeg initialStore) []) in
  let r := run Mock.mp4First (onDropped (Mock.drop [js "clip.asf"])
                               (set_selectedOutputFormat (js "mp4") s)) [] in
  (Fulfilled (Exec [js "-i"; js "input.webm"; js "output.mp4"]) (VNumber 0) ∈ trace r
   /\ Fulfilled (ReadFile (js "output.mp4")) (VBytes [Byte.x2a]) ∈ trace r)
  /\ downloads (final r) = [mkDownload (js "video/mp4") (js "output.mp4") [Byte.x2a]].
Proof.
  intros s r.
  assert (Fulfilled (Exec [js "-i"; js "input.webm"; js "output.mp4"]) (VNumber 0) ∈ trace r)
    as Hin by (apply (list_elem_of_lookup_2 _ 7); vm_compute; reflexivity).
  assert (Fulfilled (ReadFile (js "output.mp4")) (VBytes [Byte.x2a]) ∈ trace r)
    as Hin' by (apply (list_elem_of_lookup_2 _ 9); vm_compute; reflexivity).
  split; [split; [exact Hin | exact Hin']|].
  exact (proj2 (download_artifact_fixed Mock.mp4First [] (Mock.drop [js "clip.asf"]) s
                  (js "mp4") _ _ _ Hin Hin')).
Defined.

(** ** Progress *)

Lemma fold_handle_progress_kept p ls : forall s,
  progress s = PrimFloat.mul p 100%float ->
  progress (fold_left (fun s' l => handle l (progressEvent p) s') ls s)
  = PrimFloat.mul p 100%float.
Proof.
  induction ls as [|l ls IH]; intros s Hs; simpl; [done|].
  apply IH. by destruct l.
Qed.

Lemma emit_progress p s :
  onProgress ∈ listeners s ->
  progress (emit (progressEvent p) s) = PrimFloat.mul p 100%float.
Proof.
  unfold emit. generalize (listeners s) as ls. intros ls. revert s.
  induction ls as [|l ls IH]; intros s; [by rewrite elem_of_nil|].
  rewrite elem_of_cons. intros [<-|Hin]; simpl.
  - by apply fold_handle_progress_kept.
  - by apply IH.
Qed.

(** ** The names of the output file *)

(** In every run of a job, [exec] is given "output." followed by the selected
    format and [readFile] is given "output.mp4". *)
Lemma job_names (h : Host) file s e :
  let r := run h (job file s) e in
  (forall s' argv, Suspended s' (Exec argv) ∈ trace r ->
     argv = [js "-i"; js "input.webm"; js "output." ++ selectedOutputFormat s])
  /\ (forall s' path, Suspended s' (ReadFile path) ∈ trace r -> path = js "output.mp4").
Proof.
  cbv zeta. unfold job. split.
  - intros s' argv. job_cases h; intros H; trace_cases H.
    all: injection H as _ ->; by frames.
  - intros s' path. job_cases h; intros H; trace_cases H.
    all: by injection H as _ ->.
Qed.

(** C2 fails on the code: with "webm" selected, [exec] is told to write
    "output.webm" and the handler reads back "output.mp4".  On an engine that
    writes where it is told the read is rejected: the page stays in
    [convert.start] and nothing is downloaded. *)
Theorem readback_ignores_selected_format :
  let s := final (run Mock.webmFirst (loadFFmpeg initialStore) []) in
  let r := run Mock.webmFirst (onDropped (Mock.drop [js "clip.asf"]) s) [] in
  selectedOutputFormat s = js "webm"
  /\ Fulfilled (Exec [js "-i"; js "input.webm"; js "output.webm"]) (VNumber 0) ∈ trace r
  /\ Rejected (ReadFile (js "output.mp4")) ∈ trace r
  /\ js "output.mp4" <> js "output." ++ selectedOutputFormat s
  /\ result r = None
  /\ status (final r) = convert_start
  /\ downloads (final r) = [].
Proof.
  intros s r. split; [by vm_compute|].
  split; [apply (list_elem_of_lookup_2 _ 7); vm_compute; reflexivity|].
  split; [apply (list_elem_of_lookup_2 _ 9); vm_compute; reflexivity|].
  split; [by vm_compute|]. by vm_compute.
Qed.

(** ** Validation of a single file *)

Lemma accepted_iff fileName fs :
  accepted fileName fs = true <->
  fileFormatOf fileName <> [] /\ exists f, f ∈ fs /\ demuxingSupported f = true.
Proof.
  unfold accepted, truthy, JS.eqb. rewrite andb_true_iff, negb_true_iff,
    bool_decide_eq_false, existsb_exists.
  split; intros [H (f & Hf & Hd)]; (split; [done|]); exists f;
    [rewrite list_elem_of_In | rewrite <- list_elem_of_In]; done.
Qed.

Lemma includes_app a w b : includes (a ++ w ++ b) w = true.
Proof.
  induction a as [|c a IH]; simpl.
  - assert (forall s p, startsWith s p = true -> includes s p = true) as Hs
      by (intros [|? ?] ? Hp; cbn [includes]; by rewrite Hp).
    apply Hs, startsWith_app.
  - rewrite IH. apply orb_true_r.
Qed.

(** A rejected single file leaves everything but [error] as it was, and the
    message contains the extension. *)
Lemma single_drop_rejected event file s :
  filesOf event = [file] -> accepted (File.name file) (formats s) = false ->
  exists msg, onDropped event s = Return tt (set_error msg s)
              /\ includes msg (fileFormatOf (File.name file)) = true.
Proof.
  intros E Ha. rewrite (onDropped_single _ _ _ E), Ha.
  eexists. split; [done|]. apply includes_app.
Qed.

(** C1 fails on the code: the callback of [find] does not look at the format,
    so any non-empty extension passes once some format can be demuxed.  After
    discovery of asf, mp4 and webm, "clip.xyz" enters [convert.start]. *)
Theorem unsupported_extension_accepted :
  let s := final (run Mock.mp4First (loadFFmpeg initialStore) []) in
  let event := Mock.drop [js "clip.xyz"] in
  status s = loaded
  /\ fileFormatOf (js "clip.xyz") = js "xyz"
  /\ Forall (fun f => abbreviation f <> js "xyz") (formats s)
  /\ exists s' c k, onDropped event s = Await s' c k
                    /\ status s' = convert_start /\ error s' = [].
Proof.
  intros s event. split; [by vm_compute|]. split; [by vm_compute|]. split.
  - vm_compute. repeat constructor; discriminate.
  - unfold event. rewrite (onDropped_single _ (File.mk (js "clip.xyz") [Byte.x01; Byte.x02]))
      by done.
    replace (accepted _ _) with true by (by vm_compute).
    unfold convertVideo, fetchFile. cbn [bind]. by eexists _, _, _.
Qed.

(** ** Startup *)

Lemma elem_of_deliveries_control o c evs s :
  o ∈ deliveries c evs s -> exists ev s', o = Delivered c ev s' /\ sameControl s s'.
Proof.
  revert s. induction evs as [|ev evs IH]; intros s; simpl.
  - by rewrite elem_of_nil.
  - rewrite elem_of_cons. intros [->|H].
    + eexists _, _. split; [done | apply emit_sameControl].
    + apply IH in H as (ev' & s' & -> & Hc). eexists _, _. split; [done|].
      eapply sameControl_trans; [apply emit_sameControl | done].
Qed.

Lemma find_head_filter {A} (p : A -> bool) l : List.find p l = head (List.filter p l).
Proof. induction l as [|a l IH]; simpl; [done|]. by destruct (p a). Qed.

Ltac startup_cases h :=
  unfold loadFFmpeg; cbn [run];
  repeat (match goal with
          | |- context [answer h ?c ?e] =>
              destruct (answer h c e) as [[? [?|]] ?] eqn:?
          end;
          cbn [run trace result final hostAfter toValue]);
  try rewrite getFormatsFromLog_spec.

Ltac observed_cases H :=
  destruct H as [H|[? H]]; trace_cases H;
  try (injection H as ? ?; subst);
  try (apply elem_of_deliveries_control in H as (? & ? & H & Hctl);
       injection H as ? ? ?; subst; destruct Hctl as (Hst & _ & Hfs & _)).

Definition startupListeners : list Listener := [onProgress; onLogConsole; logFormatOutput].

Lemma emit_logged ev s :
  listeners s = startupListeners ->
  listeners (emit ev s) = startupListeners
  /\ loggedFormats (emit ev s) = loggedFormats s ++ logMessages [ev].
Proof.
  intros Hl. unfold emit. rewrite Hl. destruct ev; simpl; rewrite ?app_nil_r; done.
Qed.

Lemma deliverAll_logged evs : forall s,
  listeners s = startupListeners ->
  loggedFormats (deliverAll evs s) = loggedFormats s ++ logMessages evs.
Proof.
  induction evs as [|ev evs IH]; intros s Hl.
  - simpl. by rewrite app_nil_r.
  - destruct (emit_logged ev s Hl) as [Hl' He].
    change (deliverAll (ev :: evs) s) with (deliverAll evs (emit ev s)).
    rewrite IH, He by done. rewrite <- app_assoc. f_equal.
    unfold logMessages. by destruct ev.
Qed.

Section Startup.

Variable h : Host.

Lemma startup_observed e c s :
  observed c s (trace (run h (loadFFmpeg initialStore) e)) ->
  formats s = []
  /\ ((c = loadCall /\ status s = loading) \/ (c = discoveryCall /\ status s = loaded)).
Proof.
  startup_cases h.
  all: try match goal with
       | |- context [List.filter muxingSupported ?l] =>
           destruct (List.filter muxingSupported l);
           cbn [length Nat.ltb Nat.leb lookup list_lookup run trace]
       end.
  all: intros H; observed_cases H.
  all: try rewrite Hfs; try rewrite Hst; frames.
  all: first [ by (split; [|left]) | by (split; [|right]) ].
Qed.

Lemma startup_discovery_pending e :
  Fulfilled loadCall VUnit ∈ trace (run h (loadFFmpeg initialStore) e) ->
  exists s, Suspended s discoveryCall ∈ trace (run h (loadFFmpeg initialStore) e)
            /\ status s = loaded /\ formats s = [].
Proof.
  startup_cases h.
  all: try match goal with
       | |- context [List.filter muxingSupported ?l] =>
           destruct (List.filter muxingSupported l);
           cbn [length Nat.ltb Nat.leb lookup list_lookup run trace]
       end.
  all: intros H; trace_cases H.
  all: eexists; split;
    [rewrite elem_of_cons, elem_of_app; right; right;
     rewrite elem_of_cons; right; apply list_elem_of_here|].
  all: by frames.
Qed.

Lemma startup_final e :
  let r := run h (loadFFmpeg initialStore) e in
  result r = Some tt ->
  status (final r) = loaded
  /\ getFormatsFromLog (loggedFormats (final r)) = Normal (formats (final r))
  /\ selectedOutputFormat (final r)
     = match List.find muxingSupported (formats (final r)) with
       | Some f => abbreviation f
       | None => js ""
       end
  /\ exists evs0 e1 evs1 code e2,
       answer h loadCall e = (evs0, Some tt, e1)
       /\ answer h discoveryCall e1 = (evs1, Some code, e2)
       /\ loggedFormats (final r) = logMessages evs1.
Proof.
  cbv zeta. unfold loadCall, discoveryCall. startup_cases h; try done.
  rewrite find_head_filter. frames.
  match goal with
  | H1 : answer h _ e = (?evs0, Some ?u, ?e1),
    H2 : answer h _ ?e1 = (?evs1, Some ?code, ?e2) |- _ =>
      destruct u;
      destruct (List.filter muxingSupported _) as [|f fs'] eqn:Ef;
      cbn [length Nat.ltb Nat.leb lookup list_lookup run result final head];
      intros _; frames; rewrite Ef;
      (split; [by frames|]); (split; [frames; apply getFormatsFromLog_spec|]);
      (split; [by frames|]); exists evs0, e1, evs1, code, e2
  end.
  all: split; [done|]; split; [done|].
  all: rewrite deliverAll_logged; [frames; done|].
  all: frames; unfold startupListeners; done.
Qed.

End Startup.

(** C3 as stated fails: while the [-formats] call is pending the status is
    already [loaded] and the format list is still empty, although discovery
    goes on to find three formats. *)
Lemma loaded_before_discovery :
  let r := run Mock.mp4First (loadFFmpeg initialStore) [] in
  exists s, Suspended s discoveryCall ∈ trace r
            /\ status s = loaded
            /\ formats s = []
            /\ result r = Some tt
            /\ length (formats (final r)) = 3%nat.
Proof.
  intros r. eexists. split; [apply (list_elem_of_lookup_2 _ 2); vm_compute; reflexivity|].
  by vm_compute.
Qed.

(** C3, as the code has it: [status] becomes [loaded] when the engine load has
    succeeded and before discovery is started.  Every store seen during
    startup has an empty format list; it is seen with [status] [loading]
    while [load] is pending or with [status] [loaded] while the [-formats]
    call is pending.  Once [load] is fulfilled the function suspends on the
    [-formats] call in [loaded].  When startup completes, [status] is
    [loaded] and [formats] is the parse of the lines logged. *)
Theorem loaded_after_load_only (h : Host) (e : HState h) :
  let r := run h (loadFFmpeg initialStore) e in
  (forall c s, observed c s (trace r) ->
     formats s = []
     /\ ((c = loadCall /\ status s = loading) \/ (c = discoveryCall /\ status s = loaded)))
  /\ (Fulfilled loadCall VUnit ∈ trace r ->
      exists s, Suspended s discoveryCall ∈ trace r /\ status s = loaded /\ formats s = [])
  /\ (result r = Some tt ->
      status (final r) = loaded
      /\ getFormatsFromLog (loggedFormats (final r)) = Normal (formats (final r))).
Proof.
  intros r. subst r. split; [|split].
  - intros c s. apply startup_observed.
  - apply startup_discovery_pending.
  - intros H. destruct (startup_final h e H) as (? & ? & _). done.
Qed.

Lemma loaded_after_load_only_witness :
  let r := run Mock.mp4First (loadFFmpeg initialStore) [] in
  (Fulfilled loadCall VUnit ∈ trace r /\ result r = Some tt)
  /\ (exists s, Suspended s discoveryCall ∈ trace r /\ status s = loaded /\ formats s = [])
  /\ status (final r) = loaded.
Proof.
  intros r.
  assert (Fulfilled loadCall VUnit ∈ trace r) as Hin
    by (apply (list_elem_of_lookup_2 _ 1); vm_compute; reflexivity).
  assert (result r = Some tt) as Hr by (vm_compute; reflexivity).
  split; [split; [exact Hin | exact Hr]|].
  destruct (loaded_after_load_only Mock.mp4First []) as (_ & H1 & H2).
  split; [exact (H1 Hin) | exact (proj1 (H2 Hr))].
Defined.

(** C10: when startup completes, [formats] is the parse of the lines the
    engine logged during the [-formats] call, and the selected output format
    is the abbreviation of the first parsed format that can be muxed; it is
    still the empty string of the declaration when there is none. *)
Theorem selected_format_after_discovery (h : Host) (e : HState h) :
  let r := run h (loadFFmpeg initialStore) e in
  result r = Some tt ->
  (exists evs0 e1 evs1 code e2,
     answer h loadCall e = (evs0, Some tt, e1)
     /\ answer h discoveryCall e1 = (evs1, Some code, e2)
     /\ getFormatsFromLog (logMessages evs1) = Normal (formats (final r)))
  /\ selectedOutputFormat (final r)
     = match List.find muxingSupported (formats (final r)) with
       | Some f => abbreviation f
       | None => js ""
       end.
Proof.
  intros r H.
  destruct (startup_final h e H) as (_ & Hp & Hsel & evs0 & e1 & evs1 & code & e2 & A1 & A2 & Hl).
  split; [|done]. exists evs0, e1, evs1, code, e2. fold r. by rewrite <- Hl.
Qed.

Lemma selected_format_after_discovery_witness :
  let r := run Mock.webmFirst (loadFFmpeg initialStore) [] in
  result r = Some tt /\ selectedOutputFormat (final r) = js "webm".
Proof.
  intros r. assert (result r = Some tt) as Hr by (vm_compute; reflexivity).
  split; [exact Hr|].
  destruct (selected_format_after_discovery Mock.webmFirst [] Hr) as [_ H].
  unfold r. rewrite H. vm_compute. reflexivity.
Defined.

(** * Further properties *)

(** ** [trim] *)

Lemma dropWhile_head p s ch t : dropWhile p s = ch :: t -> p ch = false.
Proof.
  induction s as [|a s IH]; simpl; [done|].
  destruct (p a) eqn:Ea; [done|]. by intros [= <- _].
Qed.

Lemma dropWhile_stop p s : head s = None \/ (exists ch, head s = Some ch /\ p ch = false) ->
  dropWhile p s = s.
Proof.
  destruct s as [|a s]; simpl; [done|].
  intros [?|(ch & [= <-] & ->)]; done.
Qed.

Lemma dropWhile_split p s :
  exists pre, s = pre ++ dropWhile p s /\ all p pre.
Proof.
  unfold all. induction s as [|a s (pre & E & Hpre)]; simpl.
  - exists []. split; [done | constructor].
  - destruct (p a) eqn:Ea.
    + exists (a :: pre). split; [by rewrite E at 1 | by constructor].
    + exists []. split; [done | constructor].
Qed.

Lemma dropWhile_app_stop p l ch r :
  p ch = false -> dropWhile p (l ++ ch :: r) = dropWhile p l ++ ch :: r.
Proof.
  intros Hc. induction l as [|a l IH]; simpl; [by rewrite Hc|].
  by destruct (p a).
Qed.

Lemma trimEnd_cons ch t : isSpace ch = false -> trimEnd (ch :: t) = ch :: trimEnd t.
Proof.
  intros Hc. unfold trimEnd. rewrite reverse_cons, dropWhile_app_stop by done.
  by rewrite reverse_app.
Qed.

Lemma trimEnd_last s : dropWhile isSpace (reverse (trimEnd s)) = reverse (trimEnd s).
Proof.
  unfold trimEnd. rewrite reverse_involutive. apply dropWhile_stop.
  destruct (dropWhile isSpace (reverse s)) as [|ch t] eqn:E; [by left|].
  right. exists ch. split; [done|]. by eapply dropWhile_head.
Qed.

Lemma trimStart_trim s : trimStart (trim s) = trim s.
Proof.
  unfold trim, trimStart. destruct (dropWhile isSpace s) as [|ch t] eqn:E; [done|].
  apply dropWhile_head in E. rewrite trimEnd_cons by done. simpl. by rewrite E.
Qed.

Lemma trim_trim s : trim (trim s) = trim s.
Proof.
  unfold trim at 1. rewrite trimStart_trim. unfold trim.
  unfold trimEnd at 1. by rewrite trimEnd_last, reverse_involutive.
Qed.

(** A string that neither begins nor ends with white space is what [trim]
    leaves of it, whatever white space is put around it. *)
Lemma trim_padded pre body post first last_ mid :
  all isSpace pre -> all isSpace post ->
  body = first :: mid ++ [last_] \/ (body = [first] /\ last_ = first) ->
  isSpace first = false -> isSpace last_ = false ->
  trim (pre ++ body ++ post) = body.
Proof.
  intros Hpre Hpost Hbody Hf Hl. unfold trim.
  assert (trimStart (pre ++ body ++ post) = body ++ post) as ->.
  { unfold trimStart. clear Hpost. induction Hpre as [|a pre Ha _ IH]; simpl.
    - apply dropWhile_stop. right. exists first. split; [|done].
      by destruct Hbody as [->|[-> _]].
    - by rewrite Ha. }
  assert (body ++ post = (removelast body) ++ last_ :: post) as ->.
  { destruct Hbody as [->|[-> ->]]; [|done].
    change (first :: mid ++ [last_]) with ((first :: mid) ++ [last_]).
    rewrite removelast_last, <- app_assoc. done. }
  unfold trimEnd. rewrite reverse_app, reverse_cons, <- app_assoc.
  assert (dropWhile isSpace (reverse post ++ [last_] ++ reverse (removelast body))
          = [last_] ++ reverse (removelast body)) as ->.
  { assert (all isSpace (reverse post)) as Hr by (by apply Forall_reverse).
    induction Hr as [|a l Ha _ IH]; simpl; [by rewrite Hl | by rewrite Ha]. }
  rewrite reverse_app, reverse_involutive. simpl.
  destruct Hbody as [->|[-> ->]]; [|done].
  change (first :: mid ++ [last_]) with ((first :: mid) ++ [last_]).
  by rewrite removelast_last.
Qed.

(** ** Greedy runs *)

Lemma RepeatMatcher_cls_more p fuel x c ch t :
  rest x = ch :: t -> p ch = true ->
  RepeatMatcher (matcher (Cls p)) (S fuel) 0 x c
  = match RepeatMatcher (matcher (Cls p)) fuel 0 (advance x t) c with
    | Some z => Some z
    | None => c x
    end.
Proof.
  intros E Hp. cbn [RepeatMatcher matcher]. unfold CharacterSetMatcher. rewrite E, Hp.
  change (0 =? 0)%nat with true. cbn [andb advance endIndex].
  replace (S (endIndex x) =? endIndex x)%nat with false
    by (symmetry; apply Nat.eqb_neq; lia).
  done.
Qed.

Lemma RepeatMatcher_cls_stop p fuel x c :
  stops p (rest x) -> RepeatMatcher (matcher (Cls p)) (S fuel) 0 x c = c x.
Proof.
  intros Ht. cbn [RepeatMatcher matcher]. unfold CharacterSetMatcher.
  change (0 =? 0)%nat with true. cbn [andb].
  destruct Ht as [->|(ch & t' & -> & ->)]; done.
Qed.

Lemma RepeatMatcher_cls_max p c z w : forall x t fuel,
  rest x = w ++ t -> all p w -> stops p t ->
  (1 + length (rest x) <= fuel)%nat ->
  c (mkState (endIndex x + length w) t (captures x)) = Some z ->
  RepeatMatcher (matcher (Cls p)) fuel 0 x c = Some z.
Proof.
  induction w as [|a w IH]; intros x t fuel E Hw Ht Hf Hc;
    (destruct fuel as [|fuel]; [lia|]).
  - rewrite RepeatMatcher_cls_stop by (by rewrite E).
    simpl in Hc. rewrite Nat.add_0_r in Hc. destruct x as [i rx cs]. simpl in *. by subst rx.
  - apply Forall_cons in Hw as [Ha Hw].
    rewrite (RepeatMatcher_cls_more p fuel x c a (w ++ t)) by done.
    rewrite (IH (advance x (w ++ t)) t fuel); try done.
    + rewrite E in Hf. simpl in *. lia.
    + simpl in *. by replace (S (endIndex x + length w)) with (endIndex x + S (length w))%nat by lia.
Qed.

Lemma matcher_Cls_hit p x c ch t :
  rest x = ch :: t -> p ch = true -> matcher (Cls p) x c = c (advance x t).
Proof. intros E Hp. cbn [matcher]. unfold CharacterSetMatcher. by rewrite E, Hp. Qed.

Lemma plus_cls_max p c z w x t :
  rest x = w ++ t -> w <> [] -> all p w -> stops p t ->
  c (mkState (endIndex x + length w) t (captures x)) = Some z ->
  matcher (Plus (Cls p)) x c = Some z.
Proof.
  intros E Hne Hw Ht Hc. destruct w as [|a w]; [done|].
  apply Forall_cons in Hw as [Ha Hw].
  change (matcher (Cls p) x (fun y =>
            RepeatMatcher (matcher (Cls p)) (1 + length (rest x)) 0 y c) = Some z).
  rewrite (matcher_Cls_hit p x _ a (w ++ t)) by done.
  apply (RepeatMatcher_cls_max p c z w (advance x (w ++ t)) t); try done.
  - rewrite E. simpl. lia.
  - simpl in *. by replace (S (endIndex x + length w)) with (endIndex x + S (length w))%nat by lia.
Qed.

Lemma plus_cls_miss p c x ch t :
  rest x = ch :: t -> p ch = false -> matcher (Plus (Cls p)) x c = None.
Proof.
  intros E Hp.
  change (matcher (Cls p) x (fun y =>
            RepeatMatcher (matcher (Cls p)) (1 + length (rest x)) 0 y c) = None).
  cbn [matcher]. unfold CharacterSetMatcher. by rewrite E, Hp.
Qed.

Lemma matcher_Seq r1 r2 x c :
  matcher (Seq r1 r2) x c = matcher r1 x (fun y => matcher r2 y c).
Proof. done. Qed.

Lemma matcher_Group i r x c :
  matcher (Group i r) x c
  = matcher r x (fun y =>
      c (mkState (endIndex y) (rest y)
           (<[i := Some (take (endIndex y - endIndex x) (rest x))]> (captures y)))).
Proof. done. Qed.

Lemma matcher_Chr_hit ch x c t :
  rest x = ch :: t -> matcher (Chr ch) x c = c (advance x t).
Proof. intros E. cbn [matcher]. unfold CharacterSetMatcher. by rewrite E, N.eqb_refl. Qed.

Lemma matcher_Chr_miss ch x c a t :
  rest x = a :: t -> a <> ch -> matcher (Chr ch) x c = None.
Proof.
  intros E Hne. cbn [matcher]. unfold CharacterSetMatcher. rewrite E.
  destruct (ch =? a) eqn:Ea; [|done]. apply N.eqb_eq in Ea. congruence.
Qed.

Lemma all_notSpace_stops_isSpace abbr t :
  abbr <> [] -> all notSpace abbr -> stops isSpace (abbr ++ t).
Proof.
  intros Hne Ha. destruct abbr as [|a abbr]; [done|]. apply Forall_cons in Ha as [Ha _].
  right. exists a, (abbr ++ t). split; [done|]. unfold notSpace in Ha. by destruct (isSpace a).
Qed.

Lemma all_isSpace_stops_notSpace ws t :
  ws <> [] -> all isSpace ws -> stops notSpace (ws ++ t).
Proof.
  intros Hne Ha. destruct ws as [|a ws]; [done|]. apply Forall_cons in Ha as [Ha _].
  right. exists a, (ws ++ t). split; [done|]. unfold notSpace. by rewrite Ha.
Qed.

Lemma afterFlags_exact x ws1 abbr ws2 nm :
  rest x = ws1 ++ abbr ++ ws2 ++ nm ->
  ws1 <> [] -> all isSpace ws1 ->
  abbr <> [] -> all notSpace abbr ->
  ws2 <> [] -> all isSpace ws2 ->
  nm <> [] -> all notLineTerminator nm -> stops isSpace nm ->
  matcher afterFlags x Some
  = Some (mkState (endIndex x + length ws1 + length abbr + length ws2 + length nm) []
            (<[3%nat := Some nm]> (<[2%nat := Some abbr]> (captures x)))).
Proof.
  intros E N1 A1 N2 A2 N3 A3 N4 A4 S4. unfold afterFlags.
  rewrite matcher_Seq. eapply (plus_cls_max _ _ _ ws1); try done.
  { by apply all_notSpace_stops_isSpace. }
  rewrite matcher_Seq, matcher_Group. eapply (plus_cls_max _ _ _ abbr); try done.
  { by apply all_isSpace_stops_notSpace. }
  cbn [endIndex rest captures].
  replace (endIndex x + length ws1 + length abbr - (endIndex x + length ws1))%nat
    with (length abbr) by lia.
  rewrite take_app_length.
  rewrite matcher_Seq. eapply (plus_cls_max _ _ _ ws2); try done.
  rewrite matcher_Seq, matcher_Group.
  eapply (plus_cls_max _ _ _ nm _ []); try done.
  { cbn [rest]. by rewrite app_nil_r. }
  { by left. }
  cbn [endIndex rest captures matcher].
  replace (endIndex x + length ws1 + length abbr + length ws2 + length nm
           - (endIndex x + length ws1 + length abbr + length ws2))%nat
    with (length nm) by lia.
  by rewrite firstn_all.
Qed.

Lemma matcher_Alt r1 r2 x c :
  matcher (Alt r1 r2) x c
  = match matcher r1 x c with
    | Some z => Some z
    | None => matcher r2 x c
    end.
Proof. done. Qed.

(** On a line of the shape whose name does not begin with white space the
    search has one outcome: the groups are the flags, the abbreviation and the
    name. *)
Lemma formatLineRegex_exact sup ws1 abbr ws2 nm :
  sup ∈ flags ->
  ws1 <> [] -> all isSpace ws1 ->
  abbr <> [] -> all notSpace abbr ->
  ws2 <> [] -> all isSpace ws2 ->
  nm <> [] -> all notLineTerminator nm -> stops isSpace nm ->
  exec formatLineRegex 3 (sup ++ ws1 ++ abbr ++ ws2 ++ nm)
  = Some [Some (sup ++ ws1 ++ abbr ++ ws2 ++ nm); Some sup; Some abbr; Some nm].
Proof.
  intros Hsup N1 A1 N2 A2 N3 A3 N4 A4 S4.
  set (s := sup ++ ws1 ++ abbr ++ ws2 ++ nm).
  assert (matcher formatLineRegex (mkState 0 s (replicate 4 None)) Some
          = Some (mkState (length s) [] [None; Some sup; Some abbr; Some nm])) as Hm.
  { change (matcher (Seq (Group 1 flagsRegex) afterFlags)
              (mkState 0 s (replicate 4 None)) Some = 
            Some (mkState (length s) [] [None; Some sup; Some abbr; Some nm])).
    rewrite matcher_Seq, matcher_Group. unfold flagsRegex, flags in *.
    rewrite !elem_of_cons, elem_of_nil in Hsup.
    assert (isSpace 0x45 = false) as HE by done.
    destruct Hsup as [->|[->|[->|[]]]]; subst s.
    - rewrite matcher_Alt, (matcher_Chr_hit 0x44 _ _ (ws1 ++ abbr ++ ws2 ++ nm)) by done.
      erewrite afterFlags_exact by done. cbn. do 2 f_equal.
      rewrite !length_app. lia.
    - rewrite matcher_Alt,
        (matcher_Chr_hit 0x44 _ _ (0x45 :: ws1 ++ abbr ++ ws2 ++ nm)) by done.
      unfold afterFlags at 1. rewrite matcher_Seq.
      rewrite (plus_cls_miss isSpace _ _ 0x45 (ws1 ++ abbr ++ ws2 ++ nm)) by done.
      rewrite matcher_Alt, matcher_Seq,
        (matcher_Chr_hit 0x44 _ _ (0x45 :: ws1 ++ abbr ++ ws2 ++ nm)) by done.
      rewrite (matcher_Chr_hit 0x45 _ _ (ws1 ++ abbr ++ ws2 ++ nm)) by done.
      erewrite afterFlags_exact by done. cbn. do 2 f_equal.
      rewrite !length_app. lia.
    - rewrite matcher_Alt,
        (matcher_Chr_miss 0x44 _ _ 0x45 (ws1 ++ abbr ++ ws2 ++ nm)) by done.
      rewrite matcher_Alt, matcher_Seq,
        (matcher_Chr_miss 0x44 _ _ 0x45 (ws1 ++ abbr ++ ws2 ++ nm)) by done.
      rewrite (matcher_Chr_hit 0x45 _ _ (ws1 ++ abbr ++ ws2 ++ nm)) by done.
      erewrite afterFlags_exact by done. cbn. do 2 f_equal.
      rewrite !length_app. lia. }
  unfold exec. destruct s; cbn [execFrom]; rewrite Hm; cbn [endIndex captures];
    by rewrite Nat.sub_0_r, firstn_all.
Qed.

(** ** More on the parser *)

Lemma dropWhile_length p s : (length (dropWhile p s) <= length s)%nat.
Proof. induction s as [|a s IH]; simpl; [lia|]. destruct (p a); simpl; lia. Qed.

Lemma dropWhile_fixed p ch t : dropWhile p (ch :: t) = ch :: t -> p ch = false.
Proof.
  simpl. destruct (p ch); [|done]. intros E.
  pose proof (dropWhile_length p t) as L. rewrite E in L. simpl in L. lia.
Qed.

Lemma dropWhile_all_app p pre s : all p pre -> dropWhile p (pre ++ s) = dropWhile p s.
Proof. induction 1 as [|a pre Ha _ IH]; simpl; [done | by rewrite Ha]. Qed.

Lemma dropWhile_all p s : all p s -> dropWhile p s = [].
Proof. intros H. rewrite <- (app_nil_r s). by rewrite dropWhile_all_app. Qed.

Lemma dropWhile_app_keep p l post ch r :
  dropWhile p l = ch :: r -> dropWhile p (l ++ post) = ch :: r ++ post.
Proof.
  induction l as [|a l IH]; simpl; [done|].
  destruct (p a); [done|]. by intros [= <- <-].
Qed.

(** White space around a line does not change what [trim] leaves. *)
Lemma trim_pad pre line post :
  all isSpace pre -> all isSpace post -> trim (pre ++ line ++ post) = trim line.
Proof.
  intros Hpre Hpost. unfold trim, trimStart. rewrite dropWhile_all_app by done.
  destruct (dropWhile isSpace line) as [|ch r] eqn:E.
  - destruct (dropWhile_split isSpace line) as (l' & El & Hl). rewrite E, app_nil_r in El.
    subst l'. rewrite dropWhile_all; [done|]. by apply Forall_app.
  - rewrite (dropWhile_app_keep _ _ post _ _ E).
    unfold trimEnd. change (ch :: r ++ post) with ((ch :: r) ++ post).
    rewrite reverse_app, dropWhile_all_app; [done|]. by apply Forall_reverse.
Qed.

Lemma descriptorOf_pad pre line post :
  all isSpace pre -> all isSpace post ->
  descriptorOf (pre ++ line ++ post) = descriptorOf line.
Proof. intros Hpre Hpost. unfold descriptorOf. by rewrite trim_pad. Qed.

(** X1: the result for a log cut in two is the two results put together, and
    neither part throws: what a line yields does not depend on the lines
    before it. *)
Theorem parser_concat (a b : list jsstring) :
  exists ra rb,
    getFormatsFromLog a = Normal ra
    /\ getFormatsFromLog b = Normal rb
    /\ getFormatsFromLog (a ++ b) = Normal (ra ++ rb).
Proof.
  exists (omap descriptorOf a), (omap descriptorOf b).
  rewrite !getFormatsFromLog_spec. by rewrite omap_app.
Qed.

(** X2: white space added before and after the lines does not change the
    result. *)
Theorem parser_ignores_padding (lines lines' : list jsstring) :
  Forall2 padded lines lines' ->
  getFormatsFromLog lines' = getFormatsFromLog lines.
Proof.
  intros H. rewrite !getFormatsFromLog_spec. f_equal.
  induction H as [|line line' lines lines' (pre & post & Hpre & Hpost & ->) _ IH];
    [done|].
  cbn [omap list_omap]. fold (omap descriptorOf lines) (omap descriptorOf lines').
  by rewrite descriptorOf_pad, IH.
Qed.

Lemma parser_ignores_padding_witness :
  let lines := [js "D  asf   ASF"; js "--"] in
  let lines' := [js "   D  asf   ASF" ++ [0x0D; 0x0A]; [0x09] ++ js "--"] in
  Forall2 padded lines lines'
  /\ getFormatsFromLog lines' = Normal [mkFormat true false (js "asf") (js "ASF")].
Proof.
  intros lines lines'.
  assert (Forall2 padded lines lines') as H.
  { repeat constructor.
    - exists (js "   "), [0x0D; 0x0A].
      split; [by apply all_forallb|]. split; [by apply all_forallb | done].
    - exists [0x09], []. split; [by apply all_forallb|]. split; [constructor | done]. }
  split; [exact H|]. rewrite (parser_ignores_padding lines lines' H). reflexivity.
Defined.

Lemma all_last_space w b : all isSpace w -> last w = Some b -> isSpace b = true.
Proof.
  intros Hw Hl. apply last_Some in Hl as (w' & ->).
  apply Forall_app in Hw as [_ Hb]. by apply Forall_cons in Hb as [Hb _].
Qed.

Lemma trim_last line b : last (trim line) = Some b -> isSpace b = false.
Proof.
  intros Hl. pose proof (trimEnd_last (trimStart line)) as H. fold (trim line) in H.
  apply last_Some in Hl as (w' & E). rewrite E, reverse_app in H. simpl in H.
  by apply dropWhile_fixed in H.
Qed.

(** In what [exec] returns for a trimmed line the name neither begins nor
    ends with white space: the second [\s+] is greedy. *)
Lemma exec_trimmed_name line whole support abbr nm :
  exec formatLineRegex 3 (trim line) = Some [whole; Some support; Some abbr; Some nm] ->
  exists a b, head nm = Some a /\ last nm = Some b
              /\ isSpace a = false /\ isSpace b = false.
Proof.
  intros He. pose proof He as He'.
  apply exec_formatLine_inv in He' as (support' & abbr' & nm' & Hs & [= -> <- <- <-]).
  destruct Hs as (ws1 & ws2 & E & Hsup & N1 & A1 & N2 & A2 & N3 & A3 & N4 & A4).
  destruct (last nm) as [b|] eqn:Hb; [|by apply last_None in Hb].
  assert (isSpace b = false) as Hbs.
  { apply (trim_last line). rewrite E, !app_assoc. apply last_Some in Hb as (w' & ->).
    rewrite app_assoc. apply last_snoc. }
  destruct (dropWhile_split isSpace nm) as (sp & Enm & Hsp).
  destruct (dropWhile isSpace nm) as [|a nm0] eqn:Ed.
  { rewrite app_nil_r in Enm. subst sp.
    rewrite (all_last_space nm b Hsp Hb) in Hbs. done. }
  pose proof (dropWhile_head _ _ _ _ Ed) as Ha.
  assert (nm = a :: nm0) as Hnm.
  { assert (exec formatLineRegex 3 (trim line)
            = Some [Some (trim line); Some support; Some abbr; Some (a :: nm0)]) as He2.
    { rewrite E. rewrite Enm at 1 2.
      replace (support ++ ws1 ++ abbr ++ ws2 ++ sp ++ a :: nm0)
        with (support ++ ws1 ++ abbr ++ (ws2 ++ sp) ++ a :: nm0)
        by (by rewrite <- !app_assoc).
      apply formatLineRegex_exact; try done.
      - by destruct ws2.
      - by apply Forall_app.
      - rewrite Enm in A4. by apply Forall_app in A4 as [_ A4].
      - right. by exists a, nm0. }
    rewrite He in He2. congruence. }
  exists a, b. by rewrite Hnm in *.
Qed.

(** X3: every descriptor the parser returns is well formed: the abbreviation
    is non-empty and free of white space; the name is non-empty, has no line
    terminator and no white space at either end; and at least one of the two
    capabilities is set. *)
Theorem parser_fields_wellformed (logMessages : list jsstring) (results : list Format)
    (f : Format) :
  getFormatsFromLog logMessages = Normal results -> f ∈ results ->
  abbreviation f <> [] /\ all notSpace (abbreviation f)
  /\ all notLineTerminator (name f)
  /\ (exists a b, head (name f) = Some a /\ last (name f) = Some b
                  /\ isSpace a = false /\ isSpace b = false)
  /\ demuxingSupported f || muxingSupported f = true.
Proof.
  rewrite getFormatsFromLog_spec. intros [= <-] Hin.
  apply list_elem_of_omap in Hin as (line & _ & Hf).
  apply descriptorOf_Some in Hf as (support & abbr & nm & Hs & He & ->).
  cbn [abbreviation name demuxingSupported muxingSupported].
  pose proof (exec_trimmed_name _ _ _ _ _ He) as Hname.
  destruct Hs as (ws1 & ws2 & E & Hsup & N1 & A1 & N2 & A2 & N3 & A3 & N4 & A4).
  repeat split; try done.
  unfold flags in Hsup. rewrite !elem_of_cons, elem_of_nil in Hsup.
  by destruct Hsup as [->|[->|[->|[]]]].
Qed.

Lemma parser_fields_wellformed_witness :
  let logMessages := [js " --"; js " DE mp4   MP4 (MPEG-4 Part 14)  "] in
  let f := mkFormat true true (js "mp4") (js "MP4 (MPEG-4 Part 14)") in
  (getFormatsFromLog logMessages = Normal [f] /\ f ∈ [f])
  /\ all notSpace (abbreviation f)
  /\ all notLineTerminator (name f).
Proof.
  intros logMessages f.
  assert (getFormatsFromLog logMessages = Normal [f]) as H by reflexivity.
  assert (f ∈ [f]) as Hin by apply list_elem_of_here.
  split; [split; [exact H | exact Hin]|].
  destruct (parser_fields_wellformed logMessages [f] f H Hin) as (_ & H1 & H2 & _).
  split; [exact H1 | exact H2].
Defined.

(** X4: a line made of optional white space, flags D, DE or E, white space,
    an abbreviation free of white space, white space, a name without line
    terminator and without white space at its ends, and optional white space
    is read as exactly the descriptor with that abbreviation and that name,
    and with the capabilities its flags spell. *)
Theorem parser_reads_format_line (pre support ws1 abbr ws2 nm post : jsstring) (a b : N) :
  all isSpace pre -> all isSpace post ->
  support ∈ flags ->
  ws1 <> [] -> all isSpace ws1 ->
  abbr <> [] -> all notSpace abbr ->
  ws2 <> [] -> all isSpace ws2 ->
  all notLineTerminator nm ->
  head nm = Some a -> isSpace a = false ->
  last nm = Some b -> isSpace b = false ->
  getFormatsFromLog [pre ++ (support ++ ws1 ++ abbr ++ ws2 ++ nm) ++ post]
  = Normal [mkFormat (bool_decide (0x44 ∈ support)) (bool_decide (0x45 ∈ support)) abbr nm].
Proof.
  intros Hpre Hpost Hsup N1 A1 N2 A2 N3 A3 A4 Ha Has Hb Hbs.
  assert (nm <> []) as N4 by (by destruct nm).
  assert (stops isSpace nm) as S4.
  { destruct nm as [|a' nm']; [done|]. injection Ha as ->. right. by exists a, nm'. }
  rewrite getFormatsFromLog_spec. cbn [omap list_omap]. unfold descriptorOf.
  assert (trim (pre ++ (support ++ ws1 ++ abbr ++ ws2 ++ nm) ++ post)
          = support ++ ws1 ++ abbr ++ ws2 ++ nm) as ->.
  { apply last_Some in Hb as (nm' & ->).
    unfold flags in Hsup. rewrite !elem_of_cons, elem_of_nil in Hsup.
    destruct Hsup as [->|[->|[->|[]]]].
    - apply (trim_padded _ _ _ 0x44 b (ws1 ++ abbr ++ ws2 ++ nm')); try done.
      left. simpl. by rewrite <- !app_assoc.
    - apply (trim_padded _ _ _ 0x44 b (0x45 :: ws1 ++ abbr ++ ws2 ++ nm')); try done.
      left. simpl. by rewrite <- !app_assoc.
    - apply (trim_padded _ _ _ 0x45 b (ws1 ++ abbr ++ ws2 ++ nm')); try done.
      left. simpl. by rewrite <- !app_assoc. }
  rewrite formatLineRegex_exact by done. do 3 f_equal.
  - unfold flags in Hsup. rewrite !elem_of_cons, elem_of_nil in Hsup.
    by destruct Hsup as [->|[->|[->|[]]]].
  - unfold flags in Hsup. rewrite !elem_of_cons, elem_of_nil in Hsup.
    by destruct Hsup as [->|[->|[->|[]]]].
Qed.

(** ** Calls and events of a run *)

Lemma calls_Suspended s c tr : calls (Suspended s c :: tr) = c :: calls tr.
Proof. done. Qed.
Lemma calls_Fulfilled c v tr : calls (Fulfilled c v :: tr) = calls tr.
Proof. done. Qed.
Lemma calls_Rejected c tr : calls (Rejected c :: tr) = calls tr.
Proof. done. Qed.
Lemma calls_deliveries c evs s tr : calls (deliveries c evs s ++ tr) = calls tr.
Proof. revert s. induction evs as [|ev evs IH]; intros s; simpl; [done | apply IH]. Qed.

Lemma events_Suspended s c tr : events (Suspended s c :: tr) = events tr.
Proof. done. Qed.
Lemma events_Fulfilled c v tr : events (Fulfilled c v :: tr) = events tr.
Proof. done. Qed.
Lemma events_Rejected c tr : events (Rejected c :: tr) = events tr.
Proof. done. Qed.
Lemma events_deliveries c evs s tr : events (deliveries c evs s ++ tr) = evs ++ events tr.
Proof.
  revert s. induction evs as [|ev evs IH]; intros s; simpl; [done|].
  unfold events at 1. cbn [omap list_omap]. fold (events (deliveries c evs (emit ev s) ++ tr)).
  by rewrite IH.
Qed.

Create Rewrite HintDb trace.
#[global] Hint Rewrite calls_Suspended calls_Fulfilled calls_Rejected calls_deliveries
  events_Suspended events_Fulfilled events_Rejected events_deliveries : trace.

Lemma deliverAll_app evs evs' s :
  deliverAll (evs ++ evs') s = deliverAll evs' (deliverAll evs s).
Proof. unfold deliverAll. apply fold_left_app. Qed.

Lemma lastProgress_app evs evs' :
  lastProgress (evs ++ evs')
  = match lastProgress evs' with
    | Some p => Some p
    | None => lastProgress evs
    end.
Proof.
  induction evs as [|ev evs IH]; simpl; [by destruct (lastProgress evs')|].
  rewrite IH. by destruct (lastProgress evs').
Qed.

Lemma emit_log_progress m s : progress (emit (logEvent m) s) = progress s.
Proof.
  unfold emit. generalize (listeners s) as ls. intros ls. revert s.
  induction ls as [|l ls IH]; intros s; simpl; [done|].
  rewrite IH. by destruct l.
Qed.

Lemma progress_deliverAll evs : forall s,
  onProgress ∈ listeners s ->
  progress (deliverAll evs s)
  = match lastProgress evs with
    | Some p => PrimFloat.mul p 100%float
    | None => progress s
    end.
Proof.
  induction evs as [|ev evs IH]; intros s Hl; [done|].
  change (deliverAll (ev :: evs) s) with (deliverAll evs (emit ev s)).
  rewrite IH by (destruct (emit_sameControl ev s) as (_ & _ & _ & _ & _ & ->); done).
  cbn [lastProgress]. destruct (lastProgress evs); [done|].
  destruct ev; [by apply emit_progress | apply emit_log_progress].
Qed.

Lemma deliveries_progress o c evs : forall s c' p s',
  o ∈ deliveries c evs s -> onProgress ∈ listeners s ->
  o = Delivered c' (progressEvent p) s' ->
  progress s' = PrimFloat.mul p 100%float.
Proof.
  induction evs as [|ev evs IH]; intros s c' p s'; simpl; [by rewrite elem_of_nil|].
  rewrite elem_of_cons. intros [->|Hin] Hl Ho.
  - injection Ho as _ -> <-. by apply emit_progress.
  - eapply IH; try done.
    destruct (emit_sameControl ev s) as (_ & _ & _ & _ & _ & ->). done.
Qed.

(** ** More on the drop handler *)

Lemma onDropped_outcome event s :
  (exists s', onDropped event s = Return tt s'
              /\ (s' = s \/ exists msg, s' = set_error msg s))
  \/ (exists file, filesOf event = [file]
                   /\ accepted (File.name file) (formats s) = true
                   /\ onDropped event s = job file s).
Proof.
  destruct (onDropped_cases event s) as [[_ E]|[[_ E]|[file E]]].
  - left. exists s. eauto.
  - left. eexists. split; [exact E|]. right. eauto.
  - rewrite (onDropped_single _ _ _ E).
    destruct (accepted (File.name file) (formats s)) eqn:Ea.
    + right. by exists file.
    + left. eexists. split; [done|]. right. eauto.
Qed.

Ltac find_obs :=
  solve [ repeat first
    [ apply list_elem_of_here
    | rewrite elem_of_cons; right
    | rewrite elem_of_app; right ] ].

Section MoreConversion.

Variable h : Host.

Lemma job_rejected file s e :
  let r := run h (job file s) e in
  (result r = None <-> exists c, Rejected c ∈ trace r)
  /\ (result r = None ->
      status (final r) = convert_start /\ error (final r) = []
      /\ downloads (final r) = downloads s).
Proof.
  cbv zeta. unfold job. job_cases h.
  all: split; [split|].
  all: try done.
  all: try (intros [c H]; trace_cases H; done).
  all: try (intros _; by frames).
  all: intros _; eexists; find_obs.
Qed.

Lemma job_frame file s e :
  let r := run h (job file s) e in
  formats (final r) = formats s
  /\ selectedOutputFormat (final r) = selectedOutputFormat s
  /\ listeners (final r) = listeners s.
Proof. cbv zeta. unfold job. job_cases h; by frames. Qed.

Lemma job_downloads file s e :
  let r := run h (job file s) e in
  (status (final r) <> convert_done -> downloads (final r) = downloads s)
  /\ (length (downloads (final r)) <= S (length (downloads s)))%nat.
Proof.
  cbv zeta. unfold job. job_cases h; frames.
  all: split; [first [ done | intros Hn; by destruct Hn ]|].
  all: rewrite ?length_app; simpl; lia.
Qed.


Lemma job_progress_samples file s e c p s' :
  onProgress ∈ listeners s ->
  Delivered c (progressEvent p) s' ∈ trace (run h (job file s) e) ->
  progress s' = PrimFloat.mul p 100%float.
Proof.
  intros Hl. unfold job. job_cases h; intros H; trace_cases H.
  all: eapply deliveries_progress; [exact H| |reflexivity]; by frames.
Qed.

Lemma job_progress_final file s e :
  onProgress ∈ listeners s ->
  let r := run h (job file s) e in
  progress (final r)
  = match lastProgress (events (trace r)) with
    | Some p => PrimFloat.mul p 100%float
    | None => progress s
    end.
Proof.
  intros Hl. cbv zeta. unfold job. job_cases h.
  all: autorewrite with trace; cbn [events omap list_omap]; rewrite ?app_nil_r; frames.
  all: rewrite <- ?deliverAll_app.
  all: rewrite ?app_assoc; rewrite progress_deliverAll by (by frames); by frames.
Qed.

End MoreConversion.

(** X5: the engine is called exactly when one file is dropped and it passes
    the test.  Otherwise the handler returns at once and its promise is
    fulfilled: the host is untouched and the store is the same except, at
    most, for [error]. *)
Theorem drop_validation_only_sets_error (h : Host) (e : HState h)
    (event : DragEvent) (s : Store) :
  let r := run h (onDropped event s) e in
  (trace r = [] <->
   ~ exists file, filesOf event = [file]
                  /\ accepted (File.name file) (formats s) = true)
  /\ (trace r = [] ->
      result r = Some tt /\ hostAfter r = e
      /\ (final r = s \/ exists msg, final r = set_error msg s)).
Proof.
  intros r. subst r.
  destruct (onDropped_outcome event s) as [(s' & E & Hs')|(file & Ef & Ha & E)];
    rewrite E.
  - split; [|by intros _]. split; [|done].
    intros _ (file & Ef & Ha).
    rewrite (onDropped_single _ _ _ Ef), Ha in E. fold (job file s) in E.
    unfold job, convertVideo, fetchFile in E. discriminate E.
  - destruct (job_entry h file s e) as [D Et]. rewrite Et.
    split; [|done]. split; [done|]. intros Hn. destruct Hn. eauto.
Qed.

Lemma drop_validation_only_sets_error_witness :
  let s := final (run Mock.mp4First (loadFFmpeg initialStore) []) in
  let r := run Mock.mp4First (onDropped (mkDragEvent None) s) [] in
  trace r = [] /\ result r = Some tt /\ hostAfter r = [].
Proof.
  intros s r.
  assert (trace r = []) as Ht by reflexivity.
  split; [exact Ht|].
  destruct (drop_validation_only_sets_error Mock.mp4First [] (mkDragEvent None) s)
    as [_ H].
  destruct (H Ht) as (H1 & H2 & _). split; [exact H1 | exact H2].
Defined.

(** [file.name.split(".")]: the last piece holds no separator; it is the whole
    string when there is no separator, and otherwise what follows the last
    one. *)
Lemma split_last_piece sep s :
  exists ws w,
    split sep s = ws ++ [w] /\ (sep ∉ w)
    /\ ((ws = [] /\ s = w) \/ (ws <> [] /\ exists stem, s = stem ++ sep :: w)).
Proof.
  induction s as [|c t (ws & w & E & Hw & Hcase)]; simpl.
  - exists [], []. split; [done|]. split; [apply not_elem_of_nil | by left].
  - destruct (c =? sep) eqn:Ec.
    + apply N.eqb_eq in Ec as ->. exists ([] :: ws), w. rewrite E.
      split; [done|]. split; [done|]. right. split; [done|].
      destruct Hcase as [[-> ->]|(_ & stem & ->)]; [by exists [] | by exists (sep :: stem)].
    + apply N.eqb_neq in Ec. rewrite E.
      destruct Hcase as [[-> ->]|(Hne & stem & ->)].
      * exists [], (c :: w). simpl. split; [done|].
        split; [|by left]. rewrite elem_of_cons. intros [?|?]; [congruence | done].
      * destruct ws as [|w1 ws]; [done|]. simpl.
        exists ((c :: w1) :: ws), w. split; [done|]. split; [done|].
        right. split; [done|]. by exists (c :: stem).
Qed.

Lemma fileFormatOf_cases n :
  exists w, fileFormatOf n = w /\ (0x2E ∉ w)
            /\ (((0x2E ∉ n) /\ n = w) \/ (exists stem, n = stem ++ 0x2E :: w)).
Proof.
  unfold fileFormatOf, pop.
  destruct (split_last_piece 0x2E n) as (ws & w & -> & Hw & Hcase).
  rewrite last_snoc. exists w. split.
  - unfold truthy, JS.eqb. case_bool_decide; [by subst | done].
  - split; [done|]. destruct Hcase as [[_ ->]|[_ ?]]; [by left | by right].
Qed.

Lemma fileFormatOf_trailing_dot stem : fileFormatOf (stem ++ [0x2E]) = [].
Proof.
  destruct (fileFormatOf_cases (stem ++ [0x2E])) as (w & -> & Hw & [[Hn _]|(stem' & E)]).
  - destruct Hn. rewrite elem_of_app, elem_of_cons. tauto.
  - destruct w as [|c w] using rev_ind; [done|].
    change (stem' ++ 0x2E :: w ++ [c]) with (stem' ++ (0x2E :: w) ++ [c]) in E.
    rewrite app_assoc in E. apply app_inj_tail in E as [_ <-].
    destruct Hw. rewrite elem_of_app, elem_of_cons. tauto.
Qed.

(** X7: the extension [file.name.split(".").pop() || ""] holds no dot; a name
    without dot is its own extension; a name with a dot is a stem, a dot and
    the extension, so the extension of a name ending in a dot is empty. *)
Theorem extension_of_name (fileName : jsstring) :
  (0x2E ∉ fileFormatOf fileName)
  /\ (0x2E ∉ fileName -> fileFormatOf fileName = fileName)
  /\ (0x2E ∈ fileName ->
      exists stem, fileName = stem ++ 0x2E :: fileFormatOf fileName)
  /\ (forall stem, fileFormatOf (stem ++ [0x2E]) = []).
Proof.
  split; [|split; [|split]].
  - destruct (fileFormatOf_cases fileName) as (w & -> & Hw & _). done.
  - intros Hn.
    destruct (fileFormatOf_cases fileName) as (w & -> & Hw & [[_ ?]|(stem & E)]); [done|].
    destruct Hn. rewrite E, elem_of_app, elem_of_cons. tauto.
  - intros Hin.
    destruct (fileFormatOf_cases fileName) as (w & -> & Hw & [[Hn _]|?]); done.
  - apply fileFormatOf_trailing_dot.
Qed.

Lemma extension_of_name_witness :
  (0x2E ∈ js "clip.tar.gz"
   /\ exists stem, js "clip.tar.gz" = stem ++ 0x2E :: fileFormatOf (js "clip.tar.gz"))
  /\ (0x2E ∉ js "clip") /\ fileFormatOf (js "clip") = js "clip".
Proof.
  assert (0x2E ∈ js "clip.tar.gz") as Hin
    by (apply (list_elem_of_lookup_2 _ 4); reflexivity).
  assert (0x2E ∉ js "clip") as Hn.
  { change (js "clip") with [0x63; 0x6C; 0x69; 0x70].
    rewrite !elem_of_cons, elem_of_nil. intros H. repeat destruct H as [H|H]; done. }
  destruct (extension_of_name (js "clip.tar.gz")) as (_ & _ & H3 & _).
  destruct (extension_of_name (js "clip")) as (_ & H2 & _).
  split; [split; [exact Hin | exact (H3 Hin)]|]. split; [exact Hn | exact (H2 Hn)].
Defined.

(** X6: a single file is turned away, with the message
    "Data format <extension> not supported" and nothing else changed, whenever
    no format of the store can be demuxed (so always while the format list is
    still empty) and whenever its name ends in a dot. *)
Theorem drop_without_demuxer_rejected (event : DragEvent) (file : File.t) (s : Store) :
  filesOf event = [file] ->
  existsb demuxingSupported (formats s) = false
  \/ (exists stem, File.name file = stem ++ js ".") ->
  onDropped event s
  = Return tt (set_error (js "Data format " ++ fileFormatOf (File.name file)
                          ++ js " not supported") s).
Proof.
  intros Ef Hc. rewrite (onDropped_single _ _ _ Ef).
  replace (accepted (File.name file) (formats s)) with false; [done|].
  unfold accepted. destruct Hc as [->|(stem & ->)]; [by rewrite andb_false_r|].
  change (js ".") with [0x2E]. by rewrite fileFormatOf_trailing_dot.
Qed.

Lemma drop_without_demuxer_rejected_witness :
  let event := Mock.drop [js "clip.asf"] in
  let file := File.mk (js "clip.asf") [Byte.x01; Byte.x02] in
  (filesOf event = [file] /\ existsb demuxingSupported (formats initialStore) = false)
  /\ onDropped event initialStore
     = Return tt (set_error (js "Data format asf not supported") initialStore).
Proof.
  intros event file.
  assert (filesOf event = [file]) as Ef by reflexivity.
  assert (existsb demuxingSupported (formats initialStore) = false) as Hx by reflexivity.
  split; [split; [exact Ef | exact Hx]|].
  exact (drop_without_demuxer_rejected event file initialStore Ef (or_introl Hx)).
Defined.

(** X8: the handler never looks at [status].  A file that passes the test
    starts a job from any status, [convert.start] included, and the run is
    the same run: there is no guard against a drop during a conversion. *)
Theorem drop_ignores_status (h : Host) (e : HState h) (event : DragEvent)
    (file : File.t) (s : Store) (st : Status) :
  filesOf event = [file] ->
  accepted (File.name file) (formats s) = true ->
  onDropped event (set_status st s) = onDropped event s
  /\ exists D, trace (run h (onDropped event (set_status st s)) e)
               = Suspended (set_error (js "") (set_status convert_start s))
                   (ArrayBuffer file) :: D.
Proof.
  intros Ef Ha.
  assert (onDropped event (set_status st s) = onDropped event s) as E.
  { rewrite !(onDropped_single _ _ _ Ef). cbn [formats set_status]. by rewrite Ha. }
  split; [exact E|]. rewrite E, (onDropped_single _ _ _ Ef), Ha.
  apply (job_entry h file s e).
Qed.

Lemma drop_ignores_status_witness :
  let s := final (run Mock.mp4First (loadFFmpeg initialStore) []) in
  let event := Mock.drop [js "clip.asf"] in
  let file := File.mk (js "clip.asf") [Byte.x01; Byte.x02] in
  (filesOf event = [file] /\ accepted (File.name file) (formats s) = true)
  /\ onDropped event (set_status convert_start s) = onDropped event s.
Proof.
  intros s event file.
  assert (filesOf event = [file]) as Ef by reflexivity.
  assert (accepted (File.name file) (formats s) = true) as Ha by (vm_compute; reflexivity).
  split; [split; [exact Ef | exact Ha]|].
  exact (proj1 (drop_ignores_status Mock.mp4First [] event file s convert_start Ef Ha)).
Defined.

(** X9: the promise of the handler is rejected exactly when one of the
    promises it awaits is, and then the page is left in [convert.start] with
    no error message and no download: the drop zone goes on showing
    "Converting..." and the progress bar. *)
Theorem drop_rejected_promise (h : Host) (e : HState h) (event : DragEvent) (s : Store) :
  let r := run h (onDropped event s) e in
  (result r = None <-> exists c, Rejected c ∈ trace r)
  /\ (result r = None ->
      status (final r) = convert_start /\ error (final r) = []
      /\ downloads (final r) = downloads s
      /\ dropZone (final r) = [Paragraph (js "Converting..."); ProgressBar]).
Proof.
  intros r. subst r.
  destruct (onDropped_outcome event s) as [(s' & E & Hs')|(file & Ef & Ha & E)];
    rewrite E.
  - split; [|done]. split; [done|]. intros [c H]. by apply elem_of_nil in H.
  - destruct (job_rejected h file s e) as [H1 H2]. split; [exact H1|].
    intros Hr. destruct (H2 Hr) as (Hst & Her & Hd). repeat split; try done.
    unfold dropZone, statusIs. by rewrite Hst, Her.
Qed.

Lemma drop_rejected_promise_witness :
  let s := final (run Mock.webmFirst (loadFFmpeg initialStore) []) in
  let r := run Mock.webmFirst (onDropped (Mock.drop [js "clip.asf"]) s) [] in
  result r = None
  /\ status (final r) = convert_start
  /\ dropZone (final r) = [Paragraph (js "Converting..."); ProgressBar].
Proof.
  intros s r. assert (result r = None) as Hr by (vm_compute; reflexivity).
  split; [exact Hr|].
  destruct (drop_rejected_promise Mock.webmFirst [] (Mock.drop [js "clip.asf"]) s)
    as [_ H].
  destruct (H Hr) as (H1 & _ & _ & H4). split; [exact H1 | exact H4].
Defined.


(** X11: a run of the handler triggers at most one download, and none unless
    it ends in [convert.done]. *)
Theorem drop_downloads (h : Host) (e : HState h) (event : DragEvent) (s : Store) :
  let r := run h (onDropped event s) e in
  (length (downloads (final r)) <= S (length (downloads s)))%nat
  /\ (trace r = [] \/ status (final r) <> convert_done ->
      downloads (final r) = downloads s).
Proof.
  intros r. subst r.
  destruct (onDropped_outcome event s) as [(s' & E & Hs')|(file & Ef & Ha & E)];
    rewrite E.
  - cbn [run final trace]. destruct Hs' as [->|[msg ->]]; (split; [simpl; lia | done]).
  - destruct (job_downloads h file s e) as [H1 H2]. split; [exact H2|].
    destruct (job_entry h file s e) as [D Et]. rewrite Et. intros [?|Hn]; [done|].
    by apply H1.
Qed.

Lemma drop_downloads_witness :
  let s := final (run Mock.failing (loadFFmpeg initialStore) []) in
  let r := run Mock.failing (onDropped (Mock.drop [js "clip.asf"]) s) [] in
  status (final r) <> convert_done /\ downloads (final r) = [].
Proof.
  intros s r. assert (status (final r) <> convert_done) as Hn by (vm_compute; discriminate).
  split; [exact Hn|].
  exact (proj2 (drop_downloads Mock.failing [] (Mock.drop [js "clip.asf"]) s)
           (or_intror Hn)).
Defined.

(** X12: the handler leaves the discovered formats, the selected output
    format and the listeners as they were. *)
Theorem drop_frame (h : Host) (e : HState h) (event : DragEvent) (s : Store) :
  let r := run h (onDropped event s) e in
  formats (final r) = formats s
  /\ selectedOutputFormat (final r) = selectedOutputFormat s
  /\ listeners (final r) = listeners s.
Proof.
  intros r. subst r.
  destruct (onDropped_outcome event s) as [(s' & E & Hs')|(file & Ef & Ha & E)];
    rewrite E.
  - cbn [run final]. by destruct Hs' as [->|[msg ->]].
  - apply job_frame.
Qed.

(** X13: progress samples pass through unchanged.  With the progress listener
    registered, each sample [p] delivered during a run of the handler leaves
    the progress value at [p * 100], smaller than before or not; and at the
    end the value is that of the last sample delivered, or the value before
    the drop when there was none. *)
Theorem drop_progress_passthrough (h : Host) (e : HState h) (event : DragEvent)
    (s : Store) :
  onProgress ∈ listeners s ->
  let r := run h (onDropped event s) e in
  (forall c p s', Delivered c (progressEvent p) s' ∈ trace r ->
     progress s' = PrimFloat.mul p 100%float)
  /\ progress (final r)
     = match lastProgress (events (trace r)) with
       | Some p => PrimFloat.mul p 100%float
       | None => progress s
       end.
Proof.
  intros Hl r. subst r.
  destruct (onDropped_outcome event s) as [(s' & E & Hs')|(file & Ef & Ha & E)];
    rewrite E.
  - cbn [run final trace]. split.
    + intros c p s0 H. by apply elem_of_nil in H.
    + by destruct Hs' as [->|[msg ->]].
  - split.
    + intros c p s'. by apply job_progress_samples.
    + by apply job_progress_final.
Qed.

Lemma drop_progress_passthrough_witness :
  let s := final (run (Mock.engine Mock.listingMp4First
                         [0.5%float; 0.25%float; 0.75%float] 0 [Byte.x2a])
                    (loadFFmpeg initialStore) []) in
  let r := run (Mock.engine Mock.listingMp4First
                  [0.5%float; 0.25%float; 0.75%float] 0 [Byte.x2a])
             (onDropped (Mock.drop [js "clip.asf"]) s) [] in
  onProgress ∈ listeners s
  /\ lastProgress (events (trace r)) = Some 0.75%float
  /\ progress (final r) = PrimFloat.mul 0.75%float 100%float.
Proof.
  intros s r.
  assert (onProgress ∈ listeners s) as Hl
    by (apply (list_elem_of_lookup_2 _ 0); vm_compute; reflexivity).
  assert (lastProgress (events (trace r)) = Some 0.75%float) as Hlast
    by (vm_compute; reflexivity).
  split; [exact Hl|]. split; [exact Hlast|].
  destruct (drop_progress_passthrough
              (Mock.engine Mock.listingMp4First [0.5%float; 0.25%float; 0.75%float] 0
                 [Byte.x2a]) [] (Mock.drop [js "clip.asf"]) s Hl) as [_ H].
  fold r in H. rewrite Hlast in H. exact H.
Defined.

(** ** More on startup *)

Ltac frames_deep := repeat (progress frames).

Section MoreStartup.

Variable h : Host.

Lemma startup_settles s e :
  let r := run h (loadFFmpeg s) e in
  (result r = Some tt <-> exists code, Fulfilled discoveryCall (VNumber code) ∈ trace r)
  /\ (result r = None <-> Rejected loadCall ∈ trace r \/ Rejected discoveryCall ∈ trace r).
Proof.
  cbv zeta. unfold loadCall, discoveryCall. startup_cases h.
  all: try match goal with
       | |- context [List.filter muxingSupported ?l] =>
           destruct (List.filter muxingSupported l);
           cbn [length Nat.ltb Nat.leb lookup list_lookup run trace result]
       end.
  all: split; split.
  all: try done.
  all: try (intros [code H]; trace_cases H; done).
  all: try (intros [H|H]; trace_cases H; done).
  all: try (intros _; eexists; find_obs).
  all: try (intros _; left; find_obs).
  all: intros _; right; find_obs.
Qed.

Lemma startup_rejected e :
  let r := run h (loadFFmpeg initialStore) e in
  result r = None ->
  formats (final r) = [] /\ selectedOutputFormat (final r) = []
  /\ (status (final r) = loading \/ status (final r) = loaded).
Proof.
  cbv zeta. startup_cases h.
  all: try match goal with
       | |- context [List.filter muxingSupported ?l] =>
           destruct (List.filter muxingSupported l);
           cbn [length Nat.ltb Nat.leb lookup list_lookup run trace result]
       end.
  all: try done.
  all: intros _; repeat split; frames_deep; try done.
  all: by (left + right).
Qed.

Lemma startup_listeners_final s e :
  let r := run h (loadFFmpeg s) e in
  result r = Some tt -> listeners (final r) = startupListeners.
Proof.
  cbv zeta. startup_cases h; try done.
  all: destruct (List.filter muxingSupported _);
    cbn [length Nat.ltb Nat.leb lookup list_lookup run trace result final].
  all: intros _; frames_deep; done.
Qed.

Lemma job_logged file s e :
  listeners s = startupListeners ->
  let r := run h (job file s) e in
  loggedFormats (final r) = loggedFormats s ++ logMessages (events (trace r)).
Proof.
  intros Hl. cbv zeta. unfold job. job_cases h.
  all: autorewrite with trace; cbn [events omap list_omap]; rewrite ?app_nil_r; frames.
  all: rewrite <- ?deliverAll_app.
  all: rewrite ?app_assoc; rewrite deliverAll_logged by (by frames); by frames.
Qed.

End MoreStartup.

(** ** Progress through a job *)

Lemma sameProgress_refl s : sameProgress s s.
Proof. by split. Qed.

Lemma sameProgress_trans s1 s2 s3 :
  sameProgress s1 s2 -> sameProgress s2 s3 -> sameProgress s1 s3.
Proof. unfold sameProgress. intuition congruence. Qed.

Lemma fold_handle_sameProgress ev ls : forall s s',
  progress s' = progress s ->
  progress (fold_left (fun s0 l => handle l ev s0) ls s')
  = progress (fold_left (fun s0 l => handle l ev s0) ls s).
Proof.
  induction ls as [|l ls IH]; intros s s' Hp; simpl; [done|].
  apply IH. by destruct l, ev.
Qed.

Lemma emit_sameProgress ev s s' :
  sameProgress s s' -> sameProgress (emit ev s) (emit ev s').
Proof.
  intros [Hp Hl]. split.
  - unfold emit. rewrite Hl. by apply fold_handle_sameProgress.
  - destruct (emit_sameControl ev s) as (_ & _ & _ & _ & _ & ->).
    destruct (emit_sameControl ev s') as (_ & _ & _ & _ & _ & ->). done.
Qed.

Lemma deliverAll_sameProgress evs : forall s s',
  sameProgress s s' -> sameProgress (deliverAll evs s) (deliverAll evs s').
Proof.
  induction evs as [|ev evs IH]; intros s s' H; [done|].
  change (sameProgress (deliverAll evs (emit ev s)) (deliverAll evs (emit ev s'))).
  by apply IH, emit_sameProgress.
Qed.

(** The store that a delivery in the middle of [deliveries c evs s] shows is
    [s] after the events delivered so far. *)
Lemma deliveries_shown c evs : forall s pre o post s',
  deliveries c evs s = pre ++ o :: post -> storeOf o = Some s' ->
  s' = deliverAll (events (pre ++ [o])) s.
Proof.
  induction evs as [|ev evs IH]; intros s pre o post s' E Ho.
  - by destruct pre.
  - destruct pre as [|x pre]; injection E as <- E.
    + by injection Ho as <-.
    + apply (IH _ _ _ _ _ E Ho).
Qed.

(** In a run of a function that keeps progress, every store shown and the
    final store have the progress value that the events delivered so far
    leave when they are delivered to the store the function started from. *)
Lemma run_keepsProgress {A} (h : Host) (p : Async A) : forall s e,
  keepsProgress s p ->
  (forall pre o post s', trace (run h p e) = pre ++ o :: post ->
     storeOf o = Some s' ->
     sameProgress (deliverAll (events (pre ++ [o])) s) s')
  /\ sameProgress (deliverAll (events (trace (run h p e))) s) (final (run h p e)).
Proof.
  induction p as [a s0|s0|s0 c k IH]; intros s e Hk.
  - split; [|exact Hk]. intros pre o post s' E. by destruct pre.
  - split; [|exact Hk]. intros pre o post s' E. by destruct pre.
  - destruct Hk as [H0 Hk]. cbn [run].
    destruct (answer h c e) as [[evs [x|]] e'].
    + destruct (IH x (deliverAll evs s0) (deliverAll evs s0) e' (Hk _ _)) as [IH1 IH2].
      cbn [trace final]. split.
      * intros pre o post s' E Ho.
        destruct pre as [|x0 pre]; injection E as <- E.
        { injection Ho as <-. exact H0. }
        change (events ((Suspended s0 c :: pre) ++ [o])) with (events (pre ++ [o])).
        apply app_eq_inv in E as [(l & E1 & E2)|(l & E1 & E2)].
        -- destruct l as [|y l]; injection E2 as -> E2.
           ++ done.
           ++ rewrite (deliveries_shown _ _ _ _ _ _ _ E1 Ho).
              by apply deliverAll_sameProgress.
        -- destruct l as [|y l]; injection E2 as E2' E2.
           ++ by subst o.
           ++ subst pre y. rewrite <- app_assoc, events_deliveries.
              change (events ((Fulfilled c (toValue c x) :: l) ++ [o]))
                with (events (l ++ [o])).
              rewrite deliverAll_app.
              eapply sameProgress_trans; [|exact (IH1 _ _ _ _ E2 Ho)].
              by apply deliverAll_sameProgress, deliverAll_sameProgress.
      * autorewrite with trace. rewrite deliverAll_app.
        eapply sameProgress_trans; [|exact IH2].
        by apply deliverAll_sameProgress, deliverAll_sameProgress.
    + cbn [trace final]. split.
      * intros pre o post s' E Ho.
        destruct pre as [|x0 pre]; injection E as <- E.
        { injection Ho as <-. exact H0. }
        change (events ((Suspended s0 c :: pre) ++ [o])) with (events (pre ++ [o])).
        apply app_eq_inv in E as [(l & E1 & E2)|(l & E1 & E2)].
        -- destruct l as [|y l]; injection E2 as -> E2.
           ++ done.
           ++ rewrite (deliveries_shown _ _ _ _ _ _ _ E1 Ho).
              by apply deliverAll_sameProgress.
        -- destruct l as [|y l]; injection E2 as E2' E2.
           ++ by subst o.
           ++ by destruct l.
      * autorewrite with trace. cbn [events omap list_omap]. rewrite app_nil_r.
        by apply deliverAll_sameProgress.
Qed.

Lemma job_keepsProgress file s : keepsProgress s (job file s).
Proof.
  unfold job, convertVideo, fetchFile. cbn [bind keepsProgress].
  split; [done|]. intros buf s1. split; [done|]. intros [] s2. split; [done|].
  intros code s3. destruct (negb (code =? 0)%Z); cbn [bind keepsProgress]; [done|].
  split; [done|]. intros data s4. done.
Qed.

Lemma onDropped_keepsProgress event s : keepsProgress s (onDropped event s).
Proof.
  destruct (onDropped_outcome event s) as [(s' & E & Hs')|(file & Ef & Ha & E)];
    rewrite E.
  - by destruct Hs' as [->|[msg ->]].
  - apply job_keepsProgress.
Qed.

Lemma progress_deliverAll_quiet evs : forall s,
  lastProgress evs = None -> progress (deliverAll evs s) = progress s.
Proof.
  induction evs as [|ev evs IH]; intros s Hn; [done|].
  change (deliverAll (ev :: evs) s) with (deliverAll evs (emit ev s)).
  cbn [lastProgress] in Hn. destruct (lastProgress evs); [done|].
  rewrite IH by done. destruct ev; [done|]. apply emit_log_progress.
Qed.

Lemma startup_progress_final (h : Host) s e :
  let r := run h (loadFFmpeg s) e in
  progress (final r)
  = match lastProgress (events (trace r)) with
    | Some p => PrimFloat.mul p 100%float
    | None => progress s
    end.
Proof.
  cbv zeta. startup_cases h.
  all: try match goal with
       | |- context [List.filter muxingSupported ?l] =>
           destruct (List.filter muxingSupported l);
           cbn [length Nat.ltb Nat.leb lookup list_lookup run trace result final]
       end.
  all: autorewrite with trace; cbn [events omap list_omap]; rewrite ?app_nil_r.
  all: frames_deep.
  all: repeat (rewrite progress_deliverAll
                 by (frames_deep; rewrite ?elem_of_app, ?elem_of_cons; tauto);
               frames_deep).
  all: rewrite ?lastProgress_app.
  all: repeat match goal with
       | |- context [lastProgress ?l] => destruct (lastProgress l)
       end; done.
Qed.

(** C8, as the code has it: [convertVideo] does not touch [progress].  When
    the drop handler enters [convert.start] the progress value is the one the
    store had before the drop.  Through the run of the handler, at every
    await, after every event and at the end, the value is still the one before
    the drop as long as no progress sample was delivered during the run, and
    after a sample [p] it is [p * 100] until the next sample.  Startup leaves
    the value at 0, that of the declaration, unless a sample was delivered
    during it. *)
Theorem converting_entry_keeps_progress (h : Host) (e : HState h)
    (event : DragEvent) (s : Store) :
  let r := run h (onDropped event s) e in
  (forall o, head (trace r) = Some o ->
     exists s' c, o = Suspended s' c /\ status s' = convert_start
                  /\ progress s' = progress s)
  /\ (forall pre o post s', trace r = pre ++ o :: post -> storeOf o = Some s' ->
        (lastProgress (events (pre ++ [o])) = None -> progress s' = progress s)
        /\ (forall p, lastProgress (events (pre ++ [o])) = Some p ->
              onProgress ∈ listeners s -> progress s' = PrimFloat.mul p 100%float))
  /\ (lastProgress (events (trace r)) = None -> progress (final r) = progress s)
  /\ (forall p, lastProgress (events (trace r)) = Some p ->
        onProgress ∈ listeners s -> progress (final r) = PrimFloat.mul p 100%float)
  /\ (forall (h0 : Host) (e0 : HState h0),
        let r0 := run h0 (loadFFmpeg initialStore) e0 in
        progress (final r0)
        = match lastProgress (events (trace r0)) with
          | Some p => PrimFloat.mul p 100%float
          | None => 0%float
          end)
  /\ (forall p s0, onProgress ∈ listeners s0 ->
        progress (emit (progressEvent p) s0) = PrimFloat.mul p 100%float).
Proof.
  intros r. subst r.
  destruct (run_keepsProgress h _ s e (onDropped_keepsProgress event s)) as [Ht Hf].
  split; [|split; [|split; [|split; [|split]]]].
  - intros o Ho.
    destruct (onDropped_run_cases h e event s) as [E|(file & _ & _ & E)].
    + by rewrite E in Ho.
    + rewrite E in Ho. destruct (job_entry h file s e) as [D Et]. rewrite Et in Ho.
      injection Ho as <-. by eexists _, _.
  - intros pre o post s' E Ho. destruct (Ht _ _ _ _ E Ho) as [-> _]. split.
    + apply progress_deliverAll_quiet.
    + intros p Hp Hl. by rewrite progress_deliverAll, Hp.
  - destruct Hf as [-> _]. apply progress_deliverAll_quiet.
  - intros p Hp Hl. destruct Hf as [-> _]. by rewrite progress_deliverAll, Hp.
  - intros h0 e0. apply (startup_progress_final h0 initialStore e0).
  - apply emit_progress.
Qed.

Lemma converting_entry_keeps_progress_witness :
  let s0 := final (run Mock.mp4First (loadFFmpeg initialStore) []) in
  let r1 := run Mock.mp4First (onDropped (Mock.drop [js "first.asf"]) s0) [] in
  let s := final r1 in
  let r := run Mock.mp4First (onDropped (Mock.drop [js "second.asf"]) s) (hostAfter r1) in
  (exists o, head (trace r) = Some o
             /\ exists s' c, o = Suspended s' c /\ status s' = convert_start
                             /\ progress s' = 100%float)
  /\ (exists pre o post s',
        trace r = pre ++ o :: post /\ storeOf o = Some s'
        /\ lastProgress (events (pre ++ [o])) = None
        /\ o = Suspended s' (Exec [js "-i"; js "input.webm"; js "output.mp4"])
        /\ progress s' = 100%float)
  /\ (exists pre o post s',
        trace r = pre ++ o :: post /\ storeOf o = Some s'
        /\ lastProgress (events (pre ++ [o])) = Some 0.5%float
        /\ onProgress ∈ listeners s
        /\ progress s' = PrimFloat.mul 0.5%float 100%float).
Proof.
  intros s0 r1 s r.
  pose proof (converting_entry_keeps_progress Mock.mp4First (hostAfter r1)
                (Mock.drop [js "second.asf"]) s) as (H1 & H2 & _).
  fold r in H1, H2.
  assert (progress s = 100%float) as Hs by (vm_compute; reflexivity).
  split; [|split].
  - eexists. split; [vm_compute; reflexivity|].
    rewrite <- Hs. apply H1. vm_compute. reflexivity.
  - assert (exists o, trace r !! 4%nat = Some o) as [o Eo]
      by (eexists; vm_compute; reflexivity).
    assert (exists s', o = Suspended s' (Exec [js "-i"; js "input.webm"; js "output.mp4"]))
      as [s' Es'] by (vm_compute in Eo; injection Eo as <-; eexists; reflexivity).
    assert (storeOf o = Some s') as Ho by (by rewrite Es').
    assert (lastProgress (events (take 4 (trace r) ++ [o])) = None) as Hn
      by (rewrite Es'; vm_compute; reflexivity).
    exists (take 4 (trace r)), o, (drop 5 (trace r)), s'.
    pose proof (eq_sym (take_drop_middle _ _ _ Eo)) as E.
    split; [exact E|]. split; [exact Ho|]. split; [exact Hn|]. split; [exact Es'|].
    rewrite <- Hs. exact (proj1 (H2 _ _ _ _ E Ho) Hn).
  - assert (exists o, trace r !! 5%nat = Some o) as [o Eo]
      by (eexists; vm_compute; reflexivity).
    assert (exists s', storeOf o = Some s') as [s' Ho]
      by (vm_compute in Eo; injection Eo as <-; eexists; reflexivity).
    assert (lastProgress (events (take 5 (trace r) ++ [o])) = Some 0.5%float) as Hp
      by (vm_compute in Eo; injection Eo as <-; vm_compute; reflexivity).
    assert (onProgress ∈ listeners s) as Hl
      by (apply (list_elem_of_lookup_2 _ 0); vm_compute; reflexivity).
    exists (take 5 (trace r)), o, (drop 6 (trace r)), s'.
    pose proof (eq_sym (take_drop_middle _ _ _ Eo)) as E.
    split; [exact E|]. split; [exact Ho|]. split; [exact Hp|]. split; [exact Hl|].
    exact (proj2 (H2 _ _ _ _ E Ho) _ Hp Hl).
Defined.

(** C8 as stated fails: after a first job whose last sample was 1, a second
    accepted drop enters [convert.start] with progress 100, not 0. *)
Lemma progress_not_reset :
  let s0 := final (run Mock.mp4First (loadFFmpeg initialStore) []) in
  let r1 := run Mock.mp4First (onDropped (Mock.drop [js "first.asf"]) s0) [] in
  let r2 := run Mock.mp4First (onDropped (Mock.drop [js "second.asf"]) (final r1))
                (hostAfter r1) in
  status (final r1) = convert_done
  /\ exists s' c D, trace r2 = Suspended s' c :: D
                    /\ status s' = convert_start
                    /\ progress s' = 100%float
                    /\ progress s' <> 0%float.
Proof.
  intros s0 r1 r2. split; [by vm_compute|].
  eexists _, _, _. split; [vm_compute; reflexivity|].
  split; [done|]. split; [done|].
  cbn [progress]. intros H.
  apply (f_equal (fun x => PrimFloat.eqb x 0%float)) in H. vm_compute in H. discriminate.
Qed.

(** X14: [loadFFmpeg] itself never throws.  From any store, its promise is
    fulfilled as soon as [load] and the [-formats] call are, whatever was
    logged and whatever exit code the call returned, and it is rejected only
    when one of the two is. *)
Theorem startup_never_throws (h : Host) (e : HState h) (s : Store) :
  let r := run h (loadFFmpeg s) e in
  (result r = Some tt <-> exists code, Fulfilled discoveryCall (VNumber code) ∈ trace r)
  /\ (result r = None <-> Rejected loadCall ∈ trace r \/ Rejected discoveryCall ∈ trace r).
Proof. apply startup_settles. Qed.

Lemma startup_never_throws_witness :
  let r := run (Mock.engine [js "no format here"] [] 1 []) (loadFFmpeg initialStore) [] in
  (exists code, Fulfilled discoveryCall (VNumber code) ∈ trace r) /\ result r = Some tt.
Proof.
  intros r.
  assert (exists code, Fulfilled discoveryCall (VNumber code) ∈ trace r) as H
    by (exists 0%Z; apply (list_elem_of_lookup_2 _ 4); vm_compute; reflexivity).
  split; [exact H|].
  exact (proj2 (proj1 (startup_never_throws (Mock.engine [js "no format here"] [] 1 [])
                         [] initialStore)) H).
Defined.

(** X15: when startup fails, because [load] or the [-formats] call is
    rejected, the format list stays empty for good: the page shows
    "Loading supported formats..." and every single file dropped from then on
    is turned away as not supported. *)
Theorem startup_failure_rejects_drops (h : Host) (e : HState h) :
  let r := run h (loadFFmpeg initialStore) e in
  result r = None ->
  formats (final r) = []
  /\ (status (final r) = loading \/ status (final r) = loaded)
  /\ formatsPanel (final r) = [Paragraph (js "Loading supported formats...")]
  /\ forall event file,
       filesOf event = [file] ->
       onDropped event (final r)
       = Return tt (set_error (js "Data format " ++ fileFormatOf (File.name file)
                               ++ js " not supported") (final r)).
Proof.
  intros r Hr. destruct (startup_rejected h e Hr) as (Hf & _ & Hst). fold r in Hf, Hst.
  split; [done|]. split; [done|]. split.
  - unfold formatsPanel. by rewrite Hf.
  - intros event file Ef. rewrite (onDropped_single _ _ _ Ef). unfold accepted.
    by rewrite Hf, andb_false_r.
Qed.

Lemma startup_failure_rejects_drops_witness :
  let h := mkHost unit (fun c _ => ([], None, tt)) in
  let r := run h (loadFFmpeg initialStore) tt in
  result r = None
  /\ status (final r) = loading
  /\ onDropped (Mock.drop [js "clip.mp4"]) (final r)
     = Return tt (set_error (js "Data format mp4 not supported") (final r)).
Proof.
  intros h r. assert (result r = None) as Hr by reflexivity.
  split; [exact Hr|]. split; [reflexivity|].
  destruct (startup_failure_rejects_drops h tt Hr) as (_ & _ & _ & H).
  exact (H (Mock.drop [js "clip.mp4"]) (File.mk (js "clip.mp4") [Byte.x01; Byte.x02])
           eq_refl).
Defined.

(** X16: [logFormatOutput] is never unsubscribed.  After a startup that
    completed, every log line of a later run of the drop handler is still
    pushed to [loggedFormats], in order, while [formats] stays what discovery
    made it. *)
Theorem log_listener_outlives_discovery (h : Host) (e : HState h) (s0 : Store)
    (h' : Host) (e' : HState h') (event : DragEvent) :
  let r0 := run h (loadFFmpeg s0) e in
  result r0 = Some tt ->
  let r := run h' (onDropped event (final r0)) e' in
  listeners (final r) = [onProgress; onLogConsole; logFormatOutput]
  /\ loggedFormats (final r)
     = loggedFormats (final r0) ++ logMessages (events (trace r))
  /\ formats (final r) = formats (final r0).
Proof.
  intros r0 Hr r. subst r.
  pose proof (startup_listeners_final h s0 e Hr) as Hl. fold r0 in Hl.
  destruct (onDropped_outcome event (final r0)) as [(s' & E & Hs')|(file & Ef & Ha & E)];
    rewrite E.
  - cbn [run final trace events omap list_omap logMessages]. rewrite app_nil_r.
    by destruct Hs' as [->|[msg ->]].
  - destruct (job_frame h' file (final r0) e') as (Hf & _ & Hls).
    split; [by rewrite Hls|]. split; [by apply job_logged | done].
Qed.

Lemma log_listener_outlives_discovery_witness :
  let h' := mkHost unit (fun c _ =>
              match c return list Event * option (Answer c) * unit with
              | ArrayBuffer f => ([logEvent (js "reading")], Some (File.data f), tt)
              | WriteFile _ _ => ([logEvent (js "written")], None, tt)
              | _ => ([], None, tt)
              end) in
  let r0 := run Mock.mp4First (loadFFmpeg initialStore) [] in
  let r := run h' (onDropped (Mock.drop [js "clip.asf"]) (final r0)) tt in
  result r0 = Some tt
  /\ loggedFormats (final r) = Mock.listingMp4First ++ [js "reading"; js "written"].
Proof.
  intros h' r0 r. assert (result r0 = Some tt) as Hr by (vm_compute; reflexivity).
  split; [exact Hr|].
  destruct (log_listener_outlives_discovery Mock.mp4First [] initialStore h' tt
              (Mock.drop [js "clip.asf"]) Hr) as (_ & H & _).
  fold r0 r in H. rewrite H. vm_compute. reflexivity.
Defined.

(** ** The markup *)

Section View.

Variable h : Host.

Lemma job_view_failed file s e argv code :
  Fulfilled (Exec argv) (VNumber code) ∈ trace (run h (job file s) e) ->
  code <> 0%Z ->
  dropZone (final (run h (job file s) e))
  = [ErrorParagraph (js "Failed to convert video")].
Proof.
  intros H Hc. destruct (job_failed h file s e argv code H Hc) as (_ & Hst & He & _).
  unfold dropZone, statusIs. by rewrite Hst, He.
Qed.

Lemma job_view_done file s e argv path data :
  Fulfilled (Exec argv) (VNumber 0) ∈ trace (run h (job file s) e) ->
  Fulfilled (ReadFile path) (VBytes data) ∈ trace (run h (job file s) e) ->
  dropZone (final (run h (job file s) e)) = [Paragraph (js "Done!")].
Proof.
  intros H H'. revert H H'. unfold job.
  job_cases h; intros H H'; trace_cases H; trace_cases H'.
  unfold dropZone, statusIs. by frames.
Qed.

End View.



(** X17: what the drop zone shows after a job.  When [exec] returned a
    non-zero code it shows the error message and nothing else, the template
    having no text for [convert.error]; when the job is done it shows "Done!"
    and no error. *)
Theorem drop_zone_after_job (h : Host) (e : HState h) (event : DragEvent) (s : Store) :
  let r := run h (onDropped event s) e in
  (forall argv code,
     Fulfilled (Exec argv) (VNumber code) ∈ trace r -> code <> 0%Z ->
     dropZone (final r) = [ErrorParagraph (js "Failed to convert video")])
  /\ (forall argv path data,
        Fulfilled (Exec argv) (VNumber 0) ∈ trace r ->
        Fulfilled (ReadFile path) (VBytes data) ∈ trace r ->
        dropZone (final r) = [Paragraph (js "Done!")]).
Proof.
  intros r. subst r.
  destruct (onDropped_outcome event s) as [(s' & E & Hs')|(file & Ef & Ha & E)];
    rewrite E.
  - split; [intros argv code H|intros argv path data H];
      cbn [run trace] in H; by apply elem_of_nil in H.
  - split; [apply job_view_failed | apply job_view_done].
Qed.

Lemma drop_zone_after_job_witness :
  let s := final (run Mock.failing (loadFFmpeg initialStore) []) in
  let r := run Mock.failing (onDropped (Mock.drop [js "clip.asf"]) s) [] in
  (Fulfilled (Exec [js "-i"; js "input.webm"; js "output.mp4"]) (VNumber 1) ∈ trace r
   /\ 1%Z <> 0%Z)
  /\ dropZone (final r) = [ErrorParagraph (js "Failed to convert video")].
Proof.
  intros s r.
  assert (Fulfilled (Exec [js "-i"; js "input.webm"; js "output.mp4"]) (VNumber 1) ∈ trace r)
    as Hin by (apply (list_elem_of_lookup_2 _ 6); vm_compute; reflexivity).
  split; [split; [exact Hin | lia]|].
  destruct (drop_zone_after_job Mock.failing [] (Mock.drop [js "clip.asf"]) s) as [H _].
  exact (H _ _ Hin ltac:(lia)).
Defined.



(** ** The earlier page *)

Lemma legacy_onDropped_outcome event s :
  (exists s', Legacy.onDropped event s = Return tt s'
              /\ (s' = s \/ exists msg, s' = set_error msg s)
              /\ ~ exists f, Legacy.filesOf event = [f]
                             /\ Legacy.type f = js "video/webm")
  \/ (exists f, Legacy.filesOf event = [f]
                /\ Legacy.type f = js "video/webm"
                /\ Legacy.onDropped event s
                   = bind (Legacy.convertVideo (Legacy.file f) s)
                          (fun data s => Return tt (download data s))).
Proof.
  unfold Legacy.onDropped. destruct (Legacy.filesOf event) as [|f [|f' l]]; simpl.
  - left. exists s. split; [done|]. split; [by left|]. by intros (f & ? & _).
  - unfold JS.eqb. case_bool_decide as Et; simpl.
    + right. by exists f.
    + left. eexists. split; [done|]. split; [right; eauto|].
      intros (f0 & [= <-] & ?). done.
  - left. eexists. split; [done|]. split; [right; eauto|]. by intros (f0 & ? & _).
Qed.

Ltac legacy_cases h :=
  unfold Legacy.convertVideo, fetchFile; cbn [bind run];
  repeat (match goal with
          | |- context [answer h ?c ?e] =>
              destruct (answer h c e) as [[? [?|]] ?] eqn:?
          end;
          cbn [bind run trace result final hostAfter toValue]).

Section LegacyFacts.

Variable h : Host.

Lemma legacyJob_entry f s e :
  exists D, trace (run h (legacyJob f s) e)
            = Suspended (set_error (js "") (set_status convert_start s)) (ArrayBuffer f) :: D.
Proof. unfold legacyJob. legacy_cases h; eauto. Qed.

Lemma legacyJob_names f s e :
  let r := run h (legacyJob f s) e in
  (forall s' argv, Suspended s' (Exec argv) ∈ trace r ->
     argv = [js "-i"; js "input.webm"; js "output.mp4"])
  /\ (forall s' path, Suspended s' (ReadFile path) ∈ trace r -> path = js "output.mp4").
Proof.
  cbv zeta. unfold legacyJob. split.
  - intros s' argv. legacy_cases h; intros H; trace_cases H.
    all: by injection H as _ ->.
  - intros s' path. legacy_cases h; intros H; trace_cases H.
    all: by injection H as _ ->.
Qed.

Lemma legacyJob_exit_code_ignored f s e :
  let r := run h (legacyJob f s) e in
  (forall argv code, Fulfilled (Exec argv) (VNumber code) ∈ trace r ->
     ReadFile (js "output.mp4") ∈ calls (trace r))
  /\ (forall path data, Fulfilled (ReadFile path) (VBytes data) ∈ trace r ->
        result r = Some tt /\ status (final r) = convert_done
        /\ downloads (final r)
           = downloads s ++ [mkDownload (js "video/mp4") (js "output.mp4") data])
  /\ status (final r) <> convert_error
  /\ error (final r) = [].
Proof.
  cbv zeta. unfold legacyJob. legacy_cases h.
  all: split; [|split; [|split]].
  all: try (intros argv code H; trace_cases H).
  all: try (intros path data H; trace_cases H).
  all: try (by frames).
  all: try (autorewrite with trace; cbn [calls omap list_omap];
            rewrite !elem_of_cons; tauto).
  all: injection H as _ ->; by frames.
Qed.

End LegacyFacts.

(** X19: the earlier page tests the MIME type, not the name.  Its handler
    calls the engine exactly when one file of type "video/webm" is dropped;
    a single file of any other type is turned away with
    "Only WebM files are allowed" and nothing else changed. *)
Theorem legacy_drop_validation (h : Host) (e : HState h) (event : Legacy.DragEvent)
    (s : Store) :
  let r := run h (Legacy.onDropped event s) e in
  (trace r = [] <->
   ~ exists f, Legacy.filesOf event = [f] /\ Legacy.type f = js "video/webm")
  /\ (forall f, Legacy.filesOf event = [f] -> Legacy.type f <> js "video/webm" ->
        result r = Some tt
        /\ final r = set_error (js "Only WebM files are allowed") s).
Proof.
  intros r. subst r.
  destruct (legacy_onDropped_outcome event s) as [(s' & E & Hs' & Hn)|(f & Ef & Et & E)].
  - rewrite E. split; [done|]. intros f Ef Hne. cbn [run result final]. split; [done|].
    unfold Legacy.onDropped in E. rewrite Ef in E. simpl in E.
    unfold JS.eqb in E. rewrite bool_decide_false in E by done. simpl in E.
    by injection E as <-.
  - rewrite E. fold (legacyJob (Legacy.file f) s).
    destruct (legacyJob_entry h (Legacy.file f) s e) as [D ->]. split.
    + split; [done|]. intros Hn. destruct Hn. eauto.
    + intros f0 Ef0 Hne. rewrite Ef in Ef0. injection Ef0 as <-. done.
Qed.

Lemma legacy_drop_validation_witness :
  let f := Legacy.mkDroppedFile (File.mk (js "clip.webm") []) (js "video/mp4") in
  let event := Legacy.mkDragEvent (Some [f]) in
  let r := run Mock.mp4First (Legacy.onDropped event initialStore) [] in
  (Legacy.filesOf event = [f] /\ Legacy.type f <> js "video/webm")
  /\ final r = set_error (js "Only WebM files are allowed") initialStore.
Proof.
  intros f event r.
  assert (Legacy.type f <> js "video/webm") as Hne by (vm_compute; discriminate).
  split; [split; [reflexivity | exact Hne]|].
  destruct (legacy_drop_validation Mock.mp4First [] event initialStore) as [_ H].
  exact (proj2 (H f eq_refl Hne)).
Defined.

(** X20: the earlier page ignores the exit code of [exec].  In every run of
    its handler the output is written to and read from "output.mp4"; after
    [exec] has returned, with any code, the output is read; and once it is
    read the page is in [convert.done] and the bytes are downloaded.  A job
    never ends in [convert.error] and never sets an error message. *)
Theorem legacy_job_ignores_exit_code (h : Host) (e : HState h)
    (event : Legacy.DragEvent) (s : Store) :
  let r := run h (Legacy.onDropped event s) e in
  (forall s' argv, Suspended s' (Exec argv) ∈ trace r ->
     argv = [js "-i"; js "input.webm"; js "output.mp4"])
  /\ (forall s' path, Suspended s' (ReadFile path) ∈ trace r -> path = js "output.mp4")
  /\ (forall argv code, Fulfilled (Exec argv) (VNumber code) ∈ trace r ->
        ReadFile (js "output.mp4") ∈ calls (trace r))
  /\ (forall path data, Fulfilled (ReadFile path) (VBytes data) ∈ trace r ->
        result r = Some tt /\ status (final r) = convert_done
        /\ downloads (final r)
           = downloads s ++ [mkDownload (js "video/mp4") (js "output.mp4") data])
  /\ (trace r <> [] -> status (final r) <> convert_error /\ error (final r) = []).
Proof.
  intros r. subst r.
  destruct (legacy_onDropped_outcome event s) as [(s' & E & Hs' & Hn)|(f & Ef & Et & E)];
    rewrite E.
  - cbn [run trace].
    split; [intros ? ? H; by apply elem_of_nil in H|].
    split; [intros ? ? H; by apply elem_of_nil in H|].
    split; [intros ? ? H; by apply elem_of_nil in H|].
    split; [intros ? ? H; by apply elem_of_nil in H | done].
  - fold (legacyJob (Legacy.file f) s).
    destruct (legacyJob_names h (Legacy.file f) s e) as [H1 H2].
    destruct (legacyJob_exit_code_ignored h (Legacy.file f) s e) as (H3 & H4 & H5 & H6).
    split; [exact H1|]. split; [exact H2|]. split; [exact H3|]. split; [exact H4|].
    intros _. split; [exact H5 | exact H6].
Qed.

Lemma legacy_job_ignores_exit_code_witness :
  let f := Legacy.mkDroppedFile (File.mk (js "clip.webm") []) (js "video/webm") in
  let h := mkHost unit (fun c _ =>
             match c return list Event * option (Answer c) * unit with
             | Load _ _ => ([], Some tt, tt)
             | Exec _ => ([], Some 1%Z, tt)
             | WriteFile _ _ => ([], Some tt, tt)
             | ReadFile _ => ([], Some [Byte.x2a], tt)
             | ArrayBuffer file => ([], Some (File.data file), tt)
             end) in
  let r := run h (Legacy.onDropped (Legacy.mkDragEvent (Some [f])) initialStore) tt in
  Fulfilled (ReadFile (js "output.mp4")) (VBytes [Byte.x2a]) ∈ trace r
  /\ Fulfilled (Exec [js "-i"; js "input.webm"; js "output.mp4"]) (VNumber 1) ∈ trace r
  /\ status (final r) = convert_done.
Proof.
  intros f h r.
  assert (Fulfilled (ReadFile (js "output.mp4")) (VBytes [Byte.x2a]) ∈ trace r) as Hin
    by (apply (list_elem_of_lookup_2 _ 7); vm_compute; reflexivity).
  split; [exact Hin|].
  split; [apply (list_elem_of_lookup_2 _ 5); vm_compute; reflexivity|].
  destruct (legacy_job_ignores_exit_code h tt (Legacy.mkDragEvent (Some [f])) initialStore)
    as (_ & _ & _ & H & _).
  exact (proj1 (proj2 (H _ _ Hin))).
Defined.

Lemma parser_reads_format_line_witness :
  (all isSpace [0x09] /\ all isSpace (js "  ")
   /\ js "E" ∈ flags
   /\ js "  " <> [] /\ all isSpace (js "  ")
   /\ js "webm" <> [] /\ all notSpace (js "webm")
   /\ js " " <> [] /\ all isSpace (js " ")
   /\ all notLineTerminator (js "WebM video")
   /\ head (js "WebM video") = Some 0x57 /\ isSpace 0x57 = false
   /\ last (js "WebM video") = Some 0x6F /\ isSpace 0x6F = false)
  /\ getFormatsFromLog
       [[0x09] ++ (js "E" ++ js "  " ++ js "webm" ++ js " " ++ js "WebM video") ++ js "  "]
     = Normal [mkFormat false true (js "webm") (js "WebM video")].
Proof.
  assert (all isSpace [0x09]) as H1 by (by apply all_forallb).
  assert (all isSpace (js "  ")) as H2 by (by apply all_forallb).
  assert (js "E" ∈ flags) as H3 by (unfold flags; rewrite !elem_of_cons; tauto).
  assert (js "  " <> []) as H4 by discriminate.
  assert (js "webm" <> []) as H5 by discriminate.
  assert (all notSpace (js "webm")) as H6 by (by apply all_forallb).
  assert (js " " <> []) as H7 by discriminate.
  assert (all isSpace (js " ")) as H8 by (by apply all_forallb).
  assert (all notLineTerminator (js "WebM video")) as H9 by (by apply all_forallb).
  split; [by repeat split|].
  exact (parser_reads_format_line [0x09] (js "E") (js "  ") (js "webm") (js " ")
           (js "WebM video") (js "  ") 0x57 0x6F
           H1 H2 H3 H4 H2 H5 H6 H7 H8 H9 eq_refl eq_refl eq_refl eq_refl).
Defined.

